(** * Rebar representation generator (specklepy/objects/builtElements/rebar.py)

    A shallow embedding of [RebarGroup.generate_representation] and of the
    tube mesher [RebarGroup._line_to_cylinder_mesh], followed by the
    properties of the specification that were checked against them.

    Python values are modelled as follows.
    - [float] is IEEE binary64, Rocq's primitive [PrimFloat.float]; [+ - * /]
      are the correctly rounded primitives.
    - [int] is [Z]; [//] and [%] are [Z.div] and [Z.modulo] (both floor, as
      in Python); an [int] operand of a float operation is converted as
      Python does ([float_of_int]).
    - A raised exception is the [Raise] branch of [result].
    - What rebar.py takes from outside is a parameter of the generator
      (Section variables), so that every theorem holds whatever it is: the C
      library's [cos], [sin] and [pow] behind [math.cos], [math.sin] and
      [**], and the constructor of [Line], a class of
      specklepy.objects.geometry that is not part of the source at hand. *)

From Stdlib Require Import ZArith List String Bool Lia Floats Uint63.
Import ListNotations.
Open Scope Z_scope.

(** ** Exceptions and the error monad *)

Inductive exn : Set :=
  (* built-in exceptions that statements of rebar.py can raise *)
  | ZeroDivisionError
  | AttributeError
  | OverflowError
  | ValueError
  (* specklepy's own exception, raised by its type-checked attributes *)
  | SpeckleException
  (* the error taxonomy of the specification (section 7); rebar.py has no
     statement that raises either of them *)
  | InvalidArgument
  | DegenerateGeometry.

Inductive result (A : Type) : Type :=
  | Ok (a : A)
  | Raise (e : exn).
Arguments Ok {A} a.
Arguments Raise {A} e.

Definition bind {A B : Type} (c : result A) (k : A -> result B) : result B :=
  match c with
  | Ok a => k a
  | Raise e => Raise e
  end.

Notation "x <- c ;; k" := (bind c (fun x => k))
  (at level 61, c at next level, right associativity).

(** A [for] loop whose body may raise: the first exception leaves the loop. *)
Fixpoint for_each {A S : Type} (xs : list A) (body : S -> A -> result S)
    (s : S) : result S :=
  match xs with
  | [] => Ok s
  | a :: xs' => s' <- body s a ;; for_each xs' body s'
  end.

(** The traversal that stops at the first exception. *)
Fixpoint mapM {A B : Type} (f : A -> result B) (xs : list A)
    : result (list B) :=
  match xs with
  | [] => Ok []
  | a :: xs' => b <- f a ;; bs <- mapM f xs' ;; Ok (b :: bs)
  end.

(** ** Python built-ins *)

Definition len {A : Type} (l : list A) : Z := Z.of_nat (List.length l).

(** [range(start, stop, step)] for a positive [step]. *)
Definition range3 (start stop step : Z) : list Z :=
  map (fun k => start + step * Z.of_nat k)
      (seq 0 (Z.to_nat ((stop - start + step - 1) / step))).

(** [range(n)]. *)
Definition range (n : Z) : list Z := range3 0 n 1.

(** [l[i:j]] for non-negative [i] and [j]: never raises, clips at the end. *)
Definition slice {A : Type} (l : list A) (i j : Z) : list A :=
  firstn (Z.to_nat (j - i)) (skipn (Z.to_nat i) l).

(** The conversion of an [int] operand of a float operation
    ([PyLong_AsDouble]): the nearest float, ties to even, and
    [OverflowError] ("int too large to convert to float") when that is not
    finite, that is from [2^1024 - 2^970] on. *)
Definition float_of_int (i : Z) : result float :=
  let f := SF2Prim (binary_normalize prec emax i 0 false) in
  if PrimFloat.is_infinity f then Raise OverflowError else Ok f.

(** [a / b] on floats: Python raises where IEEE would return inf or nan. *)
Definition truediv (a b : float) : result float :=
  if PrimFloat.eqb b 0%float then Raise ZeroDivisionError
  else Ok (a / b)%float.

(** [math_1] of CPython's mathmodule.c, through which [math.sqrt],
    [math.cos] and [math.sin] call the C function [func]: a nan obtained from
    a number, or an infinity obtained from a finite number, is a
    [ValueError] ("math domain error").  The C function is taken not to set
    [errno] when its result is finite. *)
Definition math_1 (func : float -> float) (a : float) : result float :=
  let r := func a in
  if PrimFloat.is_nan r && negb (PrimFloat.is_nan a) then Raise ValueError
  else if PrimFloat.is_infinity r && PrimFloat.is_finite a
       then Raise ValueError
  else Ok r.

(** [math.sqrt]: the C [sqrt] is the correctly rounded IEEE operation. *)
Definition math_sqrt : float -> result float := math_1 PrimFloat.sqrt.

(** [math.pi] *)
Definition math_pi : float := 0x1.921fb54442d18p+1%float.

(** ** Geometry value holders

    [Point], [Line], [Polyline] and [Mesh] are imported by rebar.py from
    specklepy.objects.geometry, which is not part of the source at hand. *)

(** Modelled from the spec: the class [Point] (missing from the source), a
    passive holder of three coordinates read as [.x], [.y], [.z]. *)
Record Point : Set := { x : float; y : float; z : float }.

(** What a [Line] object may hold as [start] or [end] when the mesher reads
    it: a [Point] object, or something that is not one and has no [.x]; a
    coordinate list is the case that rebar.py itself passes to the
    constructor of [Line]. *)
Inductive endpoint : Set :=
  | PointObj (p : Point)
  | CoordList (l : list float).

(** Modelled from the spec: the class [Line] (missing from the source), an
    object holding the pair (start, end) ([end] is a keyword here, hence
    [end_]). *)
Record Line : Set := { start : endpoint; end_ : endpoint }.

(** Modelled from the spec: the class [Polyline] (missing from the source),
    whose [value] is a flat list of coordinate scalars. *)
Record Polyline : Set := { value : list float }.

(** Modelled from the spec: the class [Mesh] (missing from the source), a
    flat list of vertex scalars and a face-index buffer. *)
Record Mesh : Set := { vertices : list float; faces : list Z }.

(** Attribute access [o.x]: a Python list has no such attribute. *)
Definition getattr (field : Point -> float) (o : endpoint) : result float :=
  match o with
  | PointObj p => Ok (field p)
  | CoordList _ => Raise AttributeError
  end.

(** Elements of [generate_representation]'s result list. *)
Inductive Base : Set :=
  | LineObj (l : Line)
  | MeshObj (m : Mesh).

(** ** RebarShape and RebarGroup

    Only the attributes that the generator reads are kept, together with
    [has_first_bar] and [has_last_bar]; names, units, hooks and volume are
    stored by the constructors and never read again. *)

Record RebarShape : Set := {
  lines : list Line;
  polylines : list Polyline;
  bar_diameter : float
}.

Record RebarGroup : Set := {
  shape : RebarShape;
  number : Z;
  has_first_bar : bool;
  has_last_bar : bool;
  representation_mode : string;
  representation : list Base
}.

Module RebarRepresentationMode.
Definition AS_LINE : string := "AsLine".
Definition AS_VOLUME : string := "AsVolume".
End RebarRepresentationMode.

Definition vec3 : Set := (float * float * float)%type.
Definition idx0 (v : vec3) : float := fst (fst v).
Definition idx1 (v : vec3) : float := snd (fst v).
Definition idx2 (v : vec3) : float := snd v.

Section Generator.

(** The C library's [cos] and [sin], which [math.cos] and [math.sin] call. *)
Variables math_cos math_sin : float -> float.

(** The C library's [pow], which [**] calls on floats. *)
Variable math_pow : float -> float -> float.

(** The call [Line(start=start_point, end=end_point)] on two coordinate
    lists, as both generators make it.  The class [Line] is missing from the
    source: its constructor is a parameter, and may raise. *)
Variable new_Line : list float -> list float -> result Line.

(** [d ** 2] on a float ([float_pow] of CPython with the exponent 2.0): nan,
    the infinities, zero and 1 are settled without the C library; otherwise
    [pow] is called on the absolute value, and an infinite result is an
    [OverflowError].  [pow] is taken not to set [errno] otherwise. *)
Definition pow2 (d : float) : result float :=
  if PrimFloat.is_nan d then Ok d
  else if PrimFloat.is_infinity d then Ok (PrimFloat.abs d)
  else if PrimFloat.eqb d 0%float then Ok 0%float
  else
    let iv := PrimFloat.abs d in
    if PrimFloat.eqb iv 1%float then Ok 1%float
    else
      let ix := math_pow iv 2%float in
      if PrimFloat.is_infinity ix then Raise OverflowError else Ok ix.

(** *** RebarGroup._line_to_cylinder_mesh (lines 77-127) *)

Definition circle_vertex (radius : float) (num_segments i : Z)
    : result vec3 :=
  fi <- float_of_int i ;;
  fn <- float_of_int num_segments ;;
  angle <- truediv (2 * math_pi * fi)%float fn ;;
  c <- math_1 math_cos angle ;;
  let cx := (radius * c)%float in
  s <- math_1 math_sin angle ;;
  let cy := (radius * s)%float in
  Ok (cx, cy, 0%float).

Definition ring_pair (start_point unit_direction : vec3) (length : float)
    (vertex : vec3) : list float :=
  [ (idx0 start_point + idx0 vertex)%float;
    (idx1 start_point + idx1 vertex)%float;
    idx2 start_point ]
  ++
  [ (idx0 start_point + idx0 vertex + length * idx0 unit_direction)%float;
    (idx1 start_point + idx1 vertex + length * idx1 unit_direction)%float;
    (idx2 start_point + length * idx2 unit_direction)%float ].

Definition side_faces (num_segments i : Z) : list Z :=
  let bottom1 := i * 2 in
  let top1 := bottom1 + 1 in
  let bottom2 := (i * 2 + 2) mod (num_segments * 2) in
  let top2 := (i * 2 + 3) mod (num_segments * 2) in
  [3; bottom1; top1; bottom2] ++ [3; top1; top2; bottom2].

Definition cap_faces (num_segments top_center bottom_center i : Z)
    : list Z :=
  [3; bottom_center; i * 2; (i * 2 + 2) mod (num_segments * 2)]
  ++
  [3; top_center; (i * 2 + 1) mod (num_segments * 2); i * 2 + 1].

Definition _line_to_cylinder_mesh (self : RebarGroup) (line : Line)
    (num_segments : Z) : result Mesh :=
  sx <- getattr x (start line) ;;
  sy <- getattr y (start line) ;;
  sz <- getattr z (start line) ;;
  let start_point : vec3 := (sx, sy, sz) in
  ex <- getattr x (end_ line) ;;
  ey <- getattr y (end_ line) ;;
  ez <- getattr z (end_ line) ;;
  let end_point : vec3 := (ex, ey, ez) in
  let radius := (bar_diameter (shape self) / 2000)%float in
  let direction : vec3 :=
    ((idx0 end_point - idx0 start_point)%float,
     (idx1 end_point - idx1 start_point)%float,
     (idx2 end_point - idx2 start_point)%float) in
  q0 <- pow2 (idx0 direction) ;;
  q1 <- pow2 (idx1 direction) ;;
  q2 <- pow2 (idx2 direction) ;;
  length <- math_sqrt (0 + q0 + q1 + q2)%float ;;
  u0 <- truediv (idx0 direction) length ;;
  u1 <- truediv (idx1 direction) length ;;
  u2 <- truediv (idx2 direction) length ;;
  let unit_direction : vec3 := (u0, u1, u2) in
  circle_vertices <-
    for_each (range num_segments)
      (fun acc i =>
         vertex <- circle_vertex radius num_segments i ;;
         Ok (acc ++ [vertex]))
      [] ;;
  let vertices :=
    fold_left (fun acc vertex =>
                 acc ++ ring_pair start_point unit_direction length vertex)
              circle_vertices [] in
  let faces :=
    fold_left (fun acc i => acc ++ side_faces num_segments i)
              (range num_segments) [] in
  let top_center := len vertices / 2 - 1 in
  let bottom_center := len vertices - 1 in
  let faces :=
    fold_left (fun acc i =>
                 acc ++ cap_faces num_segments top_center bottom_center i)
              (range num_segments) faces in
  Ok {| vertices := vertices; faces := faces |}.

(** *** RebarGroup._generate_line_representation (lines 45-58) *)

Definition _generate_line_representation (self : RebarGroup)
    : result (list Line) :=
  for_each (range (number self))
    (fun acc (_ : Z) =>
       let acc :=
         fold_left (fun acc line => acc ++ [line]) (lines (shape self)) acc in
       for_each (polylines (shape self))
         (fun acc polyline =>
            for_each (range3 0 (len (value polyline) - 3) 3)
              (fun acc j =>
                 let start_point := slice (value polyline) j (j + 3) in
                 let end_point := slice (value polyline) (j + 3) (j + 6) in
                 line <- new_Line start_point end_point ;;
                 Ok (acc ++ [line]))
              acc)
         acc)
    [].

(** *** RebarGroup._generate_volumetric_representation (lines 60-75) *)

Definition _generate_volumetric_representation (self : RebarGroup)
    : result (list Mesh) :=
  for_each (range (number self))
    (fun acc (_ : Z) =>
       acc <- for_each (lines (shape self))
                (fun acc line =>
                   mesh <- _line_to_cylinder_mesh self line 36 ;;
                   Ok (acc ++ [mesh]))
                acc ;;
       for_each (polylines (shape self))
         (fun acc polyline =>
            for_each (range3 0 (len (value polyline) - 3) 3)
              (fun acc j =>
                 let start_point := slice (value polyline) j (j + 3) in
                 let end_point := slice (value polyline) (j + 3) (j + 6) in
                 line <- new_Line start_point end_point ;;
                 mesh <- _line_to_cylinder_mesh self line 36 ;;
                 Ok (acc ++ [mesh]))
              acc)
         acc)
    [].

(** *** RebarGroup.generate_representation (lines 36-43) *)

Definition generate_representation (self : RebarGroup)
    : result (list Base) :=
  if String.eqb (representation_mode self) RebarRepresentationMode.AS_VOLUME
  then meshes <- _generate_volumetric_representation self ;;
       Ok (map MeshObj meshes)
  else lines <- _generate_line_representation self ;;
       Ok (map LineObj lines).

(** *** RebarGroup.__init__ (lines 13-34) *)

Definition RebarGroup_init (shape : RebarShape) (number : Z)
    (has_first_bar has_last_bar : bool) (representation_mode : string)
    : result RebarGroup :=
  let self :=
    {| shape := shape; number := number;
       has_first_bar := has_first_bar; has_last_bar := has_last_bar;
       representation_mode := representation_mode;
       representation := [] |} in
  r <- generate_representation self ;;
  Ok {| shape := shape; number := number;
        has_first_bar := has_first_bar; has_last_bar := has_last_bar;
        representation_mode := representation_mode;
        representation := r |}.

End Generator.

(** ** RebarShape.__init__ (lines 130-143) *)

(** [v or []] for an optional list argument: [None] and the empty list are
    both falsy, and yield the fresh empty list. *)
Definition or_empty {A : Type} (v : option (list A)) : list A :=
  match v with
  | Some (a :: l) => a :: l
  | Some [] => []
  | None => []
  end.

(** The constructor, on the attributes that the generator reads ([name],
    [rebar_type] and [units] are stored as given and never read again). *)
Definition RebarShape_init (lines : option (list Line))
    (polylines : option (list Polyline)) (bar_diameter : float) : RebarShape :=
  {| lines := or_empty lines;
     polylines := or_empty polylines;
     bar_diameter := bar_diameter |}.

(** ** Reading a mesh *)

(** Modelled from the spec: the layout of [Mesh.vertices] (section 3), three
    consecutive scalars per 3D point. *)
Definition vertex_count (m : Mesh) : Z := len (vertices m) / 3.

(** Modelled from the spec: the layout of [Mesh.faces] (section 3), runs
    [[vertex_count, i1, ..., iN]].  The buffer is split into its runs; [None]
    when it is not a sequence of complete runs.  Each run consumes at least
    its header, so the buffer's length is enough fuel. *)
Fixpoint face_runs (fuel : nat) (buf : list Z) : option (list (list Z)) :=
  match buf with
  | [] => Some []
  | n :: rest =>
      match fuel with
      | O => None
      | S fuel' =>
          if (n <? 0) || (len rest <? n) then None
          else option_map (cons (firstn (Z.to_nat n) rest))
                          (face_runs fuel' (skipn (Z.to_nat n) rest))
      end
  end.

Definition mesh_faces (m : Mesh) : option (list (list Z)) :=
  face_runs (List.length (faces m)) (faces m).

(** A face refers only to emitted vertices. *)
Definition face_in_range (m : Mesh) (face : list Z) : bool :=
  forallb (fun i => (0 <=? i) && (i <? vertex_count m)) face.

(** The face buffer of a list of faces: each face after its vertex count. *)
Definition encode_faces (fs : list (list Z)) : list Z :=
  flat_map (fun face => len face :: face) fs.

(** ** Instances of the parameters, to run the model on concrete inputs *)

(** Truncated Maclaurin series for [cos] and [sin]; adequate on [0, 2 pi],
    which is where the mesher evaluates them. *)
Fixpoint maclaurin (n : nat) (k term acc t2 : float) : float :=
  match n with
  | O => acc
  | S n' =>
      let term' := (- term * t2 / ((k + 1) * (k + 2)))%float in
      maclaurin n' (k + 2)%float term' (acc + term')%float t2
  end.

Definition series_cos (a : float) : float := maclaurin 24 0 1 1 (a * a)%float.
Definition series_sin (a : float) : float := maclaurin 24 1 a a (a * a)%float.

(** A [pow] for the one exponent that rebar.py uses, 2.0: the product. *)
Definition product_pow (a b : float) : float := (a * a)%float.

(** The constructor of [Line] with specklepy's type-checked attributes.
    [start] is declared a [Point] and is checked when the constructor
    assigns it, so a coordinate list is refused with [SpeckleException];
    rebar.py never passes anything else to it. *)
Definition checked_Line (start_point end_point : list float) : result Line :=
  Raise SpeckleException.

(** The constructor of a [Line] class that stores what it is given, which is
    how section 3 of the specification describes it. *)
Definition passive_Line (start_point end_point : list float) : result Line :=
  Ok {| start := CoordList start_point; end_ := CoordList end_point |}.

Definition mesher := _line_to_cylinder_mesh series_cos series_sin product_pow.
Definition generate :=
  generate_representation series_cos series_sin product_pow checked_Line.

Definition pt (a b c : float) : endpoint := PointObj {| x := a; y := b; z := c |}.
Definition mk_group (lns : list Line) (pls : list (list float)) (d : float)
    (n : Z) (mode : string) : RebarGroup :=
  {| shape := {| lines := lns; polylines := map Build_Polyline pls;
                 bar_diameter := d |};
     number := n; has_first_bar := true; has_last_bar := true;
     representation_mode := mode; representation := [] |}.

(** The line of the scenario of section 8: (0,0,0) to (0,0,1). *)
Definition unit_z_line : Line := {| start := pt 0 0 0; end_ := pt 0 0 1 |}.

(** A segment whose two endpoints coincide. *)
Definition point_line : Line := {| start := pt 1 2 3; end_ := pt 1 2 3 |}.

(** One line, diameter 20 mm, two bars. *)
Definition scenario_group (mode : string) : RebarGroup :=
  mk_group [unit_z_line] [] 20 2 mode.

(** ** Auxiliary notions for the statements below *)

(** [self] with another [representation_mode]. *)
Definition with_mode (self : RebarGroup) (mode : string) : RebarGroup :=
  {| shape := shape self; number := number self;
     has_first_bar := has_first_bar self; has_last_bar := has_last_bar self;
     representation_mode := mode; representation := representation self |}.

(** [self] with another [number]. *)
Definition with_number (self : RebarGroup) (n : Z) : RebarGroup :=
  {| shape := shape self; number := n;
     has_first_bar := has_first_bar self; has_last_bar := has_last_bar self;
     representation_mode := representation_mode self;
     representation := representation self |}.

(** [self] with other polylines in its shape. *)
Definition with_polylines (self : RebarGroup) (pls : list Polyline)
    : RebarGroup :=
  {| shape := {| lines := lines (shape self); polylines := pls;
                 bar_diameter := bar_diameter (shape self) |};
     number := number self;
     has_first_bar := has_first_bar self; has_last_bar := has_last_bar self;
     representation_mode := representation_mode self;
     representation := representation self |}.

Definition Zsum (l : list Z) : Z := fold_right Z.add 0 l.

(** The number of segments that a coordinate list of length [L] yields. *)
Definition segment_count (L : Z) : Z := Z.max 0 ((L - 1) / 3).

(** Point [k] of a polyline: coordinates [3k .. 3k+2]. *)
Definition polyline_point (polyline : Polyline) (k : Z) : list float :=
  slice (value polyline) (3 * k) (3 * k + 3).

(** ** The loops as comprehensions

    Closed forms of what the loops of the generator build; the lemmas below
    prove that the code computes them. *)

(** Where a flattened segment comes from: a line of the shape, used as it
    is, or two slices of a polyline, handed to the constructor of [Line]. *)
Inductive segment_source : Set :=
  | Given (line : Line)
  | Sliced (start_point end_point : list float).

(** The sources of one polyline, in the order of the loop over [j]. *)
Definition polyline_sources (polyline : Polyline) : list segment_source :=
  map (fun j => Sliced (slice (value polyline) j (j + 3))
                       (slice (value polyline) (j + 3) (j + 6)))
      (range3 0 (len (value polyline) - 3) 3).

(** The flattened path of one bar instance: lines, then polylines. *)
Definition instance_sources (sh : RebarShape) : list segment_source :=
  map Given (lines sh) ++ flat_map polyline_sources (polylines sh).

(** The sources of a whole group: one bar after the other. *)
Definition group_sources (self : RebarGroup) : list segment_source :=
  List.concat (repeat (instance_sources (shape self))
                 (Z.to_nat (number self))).

Definition side_triangles (num_segments i : Z) : list (list Z) :=
  [ [i * 2; i * 2 + 1; (i * 2 + 2) mod (num_segments * 2)];
    [i * 2 + 1; (i * 2 + 3) mod (num_segments * 2);
     (i * 2 + 2) mod (num_segments * 2)] ].

Definition cap_triangles (num_segments top_center bottom_center i : Z)
    : list (list Z) :=
  [ [bottom_center; i * 2; (i * 2 + 2) mod (num_segments * 2)];
    [top_center; (i * 2 + 1) mod (num_segments * 2); i * 2 + 1] ].

Definition tube_faces (num_segments top_center bottom_center : Z)
    : list (list Z) :=
  flat_map (side_triangles num_segments) (range num_segments)
  ++ flat_map (cap_triangles num_segments top_center bottom_center)
              (range num_segments).

Section Comprehensions.

Variables math_cos math_sin : float -> float.
Variable math_pow : float -> float -> float.
Variable new_Line : list float -> list float -> result Line.

(** The line that a source yields. *)
Definition build (src : segment_source) : result Line :=
  match src with
  | Given line => Ok line
  | Sliced start_point end_point => new_Line start_point end_point
  end.

(** The part of the mesher before its loops: the endpoint reads, the
    squares and the normalisation.  It yields
    [(start_point, unit_direction, length)]. *)
Definition segment_frame (line : Line) : result (vec3 * vec3 * float) :=
  sx <- getattr x (start line) ;;
  sy <- getattr y (start line) ;;
  sz <- getattr z (start line) ;;
  ex <- getattr x (end_ line) ;;
  ey <- getattr y (end_ line) ;;
  ez <- getattr z (end_ line) ;;
  q0 <- pow2 math_pow (ex - sx)%float ;;
  q1 <- pow2 math_pow (ey - sy)%float ;;
  q2 <- pow2 math_pow (ez - sz)%float ;;
  length <- math_sqrt (0 + q0 + q1 + q2)%float ;;
  u0 <- truediv (ex - sx)%float length ;;
  u1 <- truediv (ey - sy)%float length ;;
  u2 <- truediv (ez - sz)%float length ;;
  Ok ((sx, sy, sz), (u0, u1, u2), length).

(** The circle points, in order. *)
Definition circle (radius : float) (num_segments : Z) : result (list vec3) :=
  mapM (circle_vertex math_cos math_sin radius num_segments)
       (range num_segments).

(** The vertex scalars built from the circle points. *)
Definition tube_vertices (frame : vec3 * vec3 * float)
    (circle_vertices : list vec3) : list float :=
  let '(start_point, unit_direction, length) := frame in
  flat_map (ring_pair start_point unit_direction length) circle_vertices.

(** The mesher at its default resolution, as the volume generator calls it. *)
Definition mesh36 (self : RebarGroup) (line : Line) : result Mesh :=
  _line_to_cylinder_mesh math_cos math_sin math_pow self line 36.

(** What volume mode does with a source: build the line, then mesh it. *)
Definition build_mesh (self : RebarGroup) (src : segment_source)
    : result Mesh :=
  line <- build src ;; mesh36 self line.

End Comprehensions.

(** * Lemmas *)

(** ** Loops as list comprehensions *)

Section Loops.

Context {A B : Type}.

Lemma mapM_app (f : A -> result B) (xs ys : list A) :
  mapM f (xs ++ ys)
  = (bs <- mapM f xs ;; cs <- mapM f ys ;; Ok (bs ++ cs)).
Proof.
  induction xs as [|a xs IH]; simpl.
  - destruct (mapM f ys); reflexivity.
  - destruct (f a) as [b|e]; simpl; [|reflexivity].
    rewrite IH. destruct (mapM f xs); simpl; [|reflexivity].
    destruct (mapM f ys); reflexivity.
Qed.

Lemma mapM_length (f : A -> result B) (xs : list A) (bs : list B) :
  mapM f xs = Ok bs -> List.length bs = List.length xs.
Proof.
  revert bs. induction xs as [|a xs IH]; simpl; intros bs H.
  - inversion H. reflexivity.
  - destruct (f a) as [b|e]; simpl in H; [|discriminate].
    destruct (mapM f xs) as [cs|e]; simpl in H; [|discriminate].
    inversion H. simpl. f_equal. apply IH. reflexivity.
Qed.

Lemma mapM_all_ok (f : A -> result B) (g : A -> B) (xs : list A) :
  (forall a, In a xs -> f a = Ok (g a)) -> mapM f xs = Ok (map g xs).
Proof.
  induction xs as [|a xs IH]; simpl; intros H; [reflexivity|].
  rewrite (H a) by (left; reflexivity). simpl.
  rewrite IH by (intros; apply H; right; assumption). reflexivity.
Qed.

Lemma mapM_raises (f : A -> result B) (xs : list A) (a : A) (e : exn) :
  In a xs -> f a = Raise e -> exists e', mapM f xs = Raise e'.
Proof.
  induction xs as [|a0 xs IH]; intros Hin Hf; [contradiction|].
  cbn [mapM]. destruct (f a0) as [b|e0] eqn:E0; cbn [bind].
  - destruct Hin as [->|Hin]; [congruence|].
    destruct (IH Hin Hf) as [e' ->]. exists e'. reflexivity.
  - exists e0. reflexivity.
Qed.

Lemma mapM_raise_inv (f : A -> result B) (xs : list A) (e : exn) :
  mapM f xs = Raise e -> exists a, In a xs /\ f a = Raise e.
Proof.
  induction xs as [|a xs IH]; cbn [mapM]; intros H; [discriminate|].
  destruct (f a) as [b|e0] eqn:Ea; cbn [bind] in H.
  - destruct (mapM f xs) as [bs|e1]; cbn [bind] in H; [discriminate|].
    destruct IH as (a' & Hin & Ha'); [exact H|].
    exists a'. split; [right; exact Hin|exact Ha'].
  - exists a. split; [left; reflexivity|]. congruence.
Qed.

Lemma mapM_ok_in (f : A -> result B) (xs : list A) (bs : list B) (b : B) :
  mapM f xs = Ok bs -> In b bs -> exists a, In a xs /\ f a = Ok b.
Proof.
  revert bs. induction xs as [|a xs IH]; cbn [mapM]; intros bs H Hb.
  - injection H as <-. contradiction.
  - destruct (f a) as [b0|e0] eqn:Ea; cbn [bind] in H; [|discriminate].
    destruct (mapM f xs) as [cs|e1]; cbn [bind] in H; [|discriminate].
    injection H as <-. destruct Hb as [<-|Hb].
    + exists a. split; [left; reflexivity|exact Ea].
    + destruct (IH cs eq_refl Hb) as (a' & Hin & Ha').
      exists a'. split; [right; exact Hin|exact Ha'].
Qed.

Lemma mapM_ok_all (f : A -> result B) (xs : list A) (bs : list B) (a : A) :
  mapM f xs = Ok bs -> In a xs -> exists b, f a = Ok b.
Proof.
  intros H Hin. destruct (f a) as [b|e] eqn:E; [exists b; reflexivity|].
  destruct (mapM_raises f xs a e Hin E) as [e' He']. congruence.
Qed.

Lemma mapM_first_failure (f : A -> result B) (pre post : list A) (l : A)
    (e : exn) :
  (forall a, In a pre -> exists b, f a = Ok b) ->
  f l = Raise e ->
  mapM f (pre ++ l :: post) = Raise e.
Proof.
  intros Hpre Hl. induction pre as [|a pre IH]; cbn [app mapM].
  - rewrite Hl. reflexivity.
  - destruct (Hpre a) as [b ->]; [left; reflexivity|]. cbn [bind].
    rewrite IH by (intros; apply Hpre; right; assumption). reflexivity.
Qed.

Lemma mapM_concat_repeat_ok (f : A -> result B) (l : list A) (bs : list B)
    (k : nat) :
  mapM f l = Ok bs ->
  mapM f (List.concat (repeat l k)) = Ok (List.concat (repeat bs k)).
Proof.
  intros H. induction k as [|k IH]; cbn [repeat List.concat]; [reflexivity|].
  rewrite mapM_app, H, IH. reflexivity.
Qed.

Lemma mapM_concat_repeat_raise (f : A -> result B) (l : list A) (e : exn)
    (k : nat) :
  mapM f l = Raise e ->
  mapM f (List.concat (repeat l (S k))) = Raise e.
Proof.
  intros H. cbn [repeat List.concat]. rewrite mapM_app, H. reflexivity.
Qed.

Lemma mapM_ext (f g : A -> result B) (xs : list A) :
  (forall a, f a = g a) -> mapM f xs = mapM g xs.
Proof.
  intros H. induction xs as [|a xs IH]; cbn [mapM]; [reflexivity|].
  rewrite H, IH. reflexivity.
Qed.

End Loops.

(** A traversal by [f] then [g], element by element, against the traversal
    by [f] followed by the traversal by [g]. *)
Lemma mapM_bind_split {A B C : Type} (f : A -> result B) (g : B -> result C)
    (xs : list A) (cs : list C) :
  mapM (fun a => b <- f a ;; g b) xs = Ok cs ->
  exists bs, mapM f xs = Ok bs /\ mapM g bs = Ok cs.
Proof.
  revert cs. induction xs as [|a xs IH]; cbn [mapM]; intros cs H.
  - injection H as <-. exists []. split; reflexivity.
  - destruct (f a) as [b|e] eqn:Ef; cbn [bind] in H; [|discriminate].
    destruct (g b) as [c|e] eqn:Eg; cbn [bind] in H; [|discriminate].
    destruct (mapM (fun a => b <- f a ;; g b) xs) as [cs'|e] eqn:E;
      cbn [bind] in H; [|discriminate].
    injection H as <-. destruct (IH cs' eq_refl) as (bs & Hb & Hc).
    exists (b :: bs). rewrite Hb. cbn [bind mapM]. rewrite Eg, Hc.
    split; reflexivity.
Qed.

Lemma mapM_bind_eq {A B C : Type} (f : A -> result B) (g : B -> result C)
    (xs : list A) (bs : list B) :
  mapM f xs = Ok bs ->
  mapM (fun a => b <- f a ;; g b) xs = mapM g bs.
Proof.
  revert bs. induction xs as [|a xs IH]; cbn [mapM]; intros bs H.
  - injection H as <-. reflexivity.
  - destruct (f a) as [b|e] eqn:Ef; cbn [bind] in H; [|discriminate].
    destruct (mapM f xs) as [bs'|e] eqn:E; cbn [bind] in H; [|discriminate].
    injection H as <-. cbn [bind mapM]. rewrite (IH bs' eq_refl).
    reflexivity.
Qed.

Lemma fold_left_collect {A B : Type} (segs : A -> list B)
    (body : list B -> A -> list B) (xs : list A) (acc : list B) :
  (forall acc a, body acc a = acc ++ segs a) ->
  fold_left body xs acc = acc ++ flat_map segs xs.
Proof.
  intros Hbody. revert acc.
  induction xs as [|a xs IH]; intros acc; simpl.
  - rewrite app_nil_r. reflexivity.
  - rewrite IH, Hbody, app_assoc. reflexivity.
Qed.

Lemma for_each_collect {A B C : Type} (f : B -> result C) (segs : A -> list B)
    (body : list C -> A -> result (list C)) (xs : list A) (acc : list C) :
  (forall acc a, body acc a = (bs <- mapM f (segs a) ;; Ok (acc ++ bs))) ->
  for_each xs body acc = (bs <- mapM f (flat_map segs xs) ;; Ok (acc ++ bs)).
Proof.
  intros Hbody. revert acc.
  induction xs as [|a xs IH]; intros acc; simpl.
  - rewrite app_nil_r. reflexivity.
  - rewrite Hbody, mapM_app.
    destruct (mapM f (segs a)) as [bs|e]; simpl; [|reflexivity].
    rewrite IH.
    destruct (mapM f (flat_map segs xs)) as [cs|e]; simpl; [|reflexivity].
    rewrite app_assoc. reflexivity.
Qed.

Lemma flat_map_singleton {A B : Type} (g : A -> B) (xs : list A) :
  flat_map (fun a => [g a]) xs = map g xs.
Proof.
  induction xs as [|a xs IH]; simpl; congruence.
Qed.

(** The loop that appends one result per element. *)
Lemma for_each_append {A C : Type} (f : A -> result C) (xs : list A)
    (acc : list C) :
  for_each xs (fun acc a => c <- f a ;; Ok (acc ++ [c])) acc
  = (cs <- mapM f xs ;; Ok (acc ++ cs)).
Proof.
  rewrite (for_each_collect f (fun a => [a])).
  - rewrite (flat_map_singleton (fun a => a)), map_id. reflexivity.
  - intros acc' a. cbn [mapM]. destruct (f a); reflexivity.
Qed.

Lemma flat_map_const {A B : Type} (l : list B) (xs : list A) :
  flat_map (fun _ => l) xs = List.concat (repeat l (List.length xs)).
Proof.
  induction xs as [|a xs IH]; simpl; [reflexivity|].
  rewrite IH. reflexivity.
Qed.

Lemma concat_repeat_length {A : Type} (l : list A) (k : nat) :
  List.length (List.concat (repeat l k)) = (k * List.length l)%nat.
Proof.
  induction k as [|k IH]; simpl; [reflexivity|].
  rewrite length_app, IH. reflexivity.
Qed.

Lemma concat_repeat_add {A : Type} (l : list A) (j k : nat) :
  List.concat (repeat l (j + k))
  = List.concat (repeat l j) ++ List.concat (repeat l k).
Proof.
  induction j as [|j IH]; simpl; [reflexivity|].
  rewrite IH, app_assoc. reflexivity.
Qed.

Lemma concat_repeat_nil {A : Type} (k : nat) :
  List.concat (repeat (@nil A) k) = [].
Proof. induction k as [|k IH]; simpl; [reflexivity|exact IH]. Qed.

Lemma concat_repeat_map {A B : Type} (g : A -> B) (l : list A) (k : nat) :
  map g (List.concat (repeat l k)) = List.concat (repeat (map g l) k).
Proof.
  induction k as [|k IH]; cbn [repeat List.concat map]; [reflexivity|].
  rewrite map_app, IH. reflexivity.
Qed.

Lemma flat_map_length_const {A B : Type} (g : A -> list B) (k : nat)
    (xs : list A) :
  (forall a, List.length (g a) = k) ->
  List.length (flat_map g xs) = (k * List.length xs)%nat.
Proof.
  intros Hg. induction xs as [|a xs IH]; simpl; [lia|].
  rewrite length_app, Hg, IH. lia.
Qed.

Lemma flat_map_len_Zsum {A B : Type} (g : A -> list B) (xs : list A) :
  len (flat_map g xs) = Zsum (map (fun a => len (g a)) xs).
Proof.
  unfold len. induction xs as [|a xs IH]; simpl; [reflexivity|].
  rewrite length_app, Nat2Z.inj_add, IH. reflexivity.
Qed.


(** ** [range] and [slice] *)

Lemma range_seq (n : Z) : range n = map Z.of_nat (seq 0 (Z.to_nat n)).
Proof.
  unfold range, range3.
  replace ((n - 0 + 1 - 1) / 1) with n by (rewrite Z.div_1_r; lia).
  apply map_ext. intros k. lia.
Qed.

Lemma range_length (n : Z) : len (range n) = Z.max 0 n.
Proof.
  unfold len. rewrite range_seq, length_map, length_seq. lia.
Qed.

Lemma range_length_nat (n : Z) : List.length (range n) = Z.to_nat n.
Proof. rewrite range_seq, length_map, length_seq. reflexivity. Qed.

Lemma range_nonpos (n : Z) : n <= 0 -> range n = [].
Proof.
  intros H. rewrite range_seq.
  replace (Z.to_nat n) with O by lia. reflexivity.
Qed.

Lemma range_pos (n : Z) : 0 < n -> exists rest, range n = 0 :: rest.
Proof.
  intros H. rewrite range_seq.
  destruct (Z.to_nat n) as [|k] eqn:E; [lia|].
  simpl. eexists. reflexivity.
Qed.

Lemma in_range (n i : Z) : In i (range n) <-> 0 <= i < n.
Proof.
  rewrite range_seq, in_map_iff. split.
  - intros (k & <- & Hk). apply in_seq in Hk. lia.
  - intros H. exists (Z.to_nat i). split; [lia|]. apply in_seq. lia.
Qed.


Lemma range3_length (stop : Z) :
  len (range3 0 stop 3) = Z.max 0 ((stop + 2) / 3).
Proof.
  unfold len, range3. rewrite length_map, length_seq.
  replace (stop - 0 + 3 - 1) with (stop + 2) by lia.
  assert (H : (stop + 2) / 3 < 0 \/ 0 <= (stop + 2) / 3) by lia.
  destruct H; lia.
Qed.

Lemma in_range3_0 (stop : Z) : 0 < stop -> In 0 (range3 0 stop 3).
Proof.
  intros H. unfold range3.
  assert (Hq : 0 < (stop - 0 + 3 - 1) / 3).
  { apply Z.div_str_pos. lia. }
  destruct (Z.to_nat ((stop - 0 + 3 - 1) / 3)) as [|k] eqn:E; [lia|].
  left. reflexivity.
Qed.

Lemma range3_nonpos (stop : Z) : stop <= 0 -> range3 0 stop 3 = [].
Proof.
  intros H. unfold range3.
  assert (Hq : (stop - 0 + 3 - 1) / 3 <= 0).
  { apply Z.lt_succ_r. apply Z.div_lt_upper_bound; lia. }
  replace (Z.to_nat _) with 0%nat by lia. reflexivity.
Qed.

Lemma slice_len {A : Type} (l : list A) (i j : Z) :
  0 <= i -> len (slice l i j) = Z.max 0 (Z.min (j - i) (len l - i)).
Proof.
  intros Hi. unfold slice, len. rewrite length_firstn, length_skipn. lia.
Qed.

(** ** Face buffers made of triangles *)

Lemma face_runs_encode (fs : list (list Z)) (fuel : nat) :
  (List.length fs <= fuel)%nat ->
  face_runs fuel (encode_faces fs) = Some fs.
Proof.
  revert fuel. induction fs as [|face fs IH]; intros fuel Hfuel.
  - destruct fuel; reflexivity.
  - destruct fuel as [|fuel]; [simpl in Hfuel; lia|].
    cbn [encode_faces flat_map app face_runs].
    fold (encode_faces fs).
    assert (Hn : (len face <? 0) = false) by (apply Z.ltb_ge; unfold len; lia).
    assert (Hl : (len (face ++ encode_faces fs) <? len face) = false).
    { apply Z.ltb_ge. unfold len. rewrite length_app. lia. }
    rewrite Hn, Hl. cbn [orb].
    unfold len at 1 2. rewrite !Nat2Z.id.
    rewrite firstn_app, firstn_all, Nat.sub_diag, firstn_0, app_nil_r.
    rewrite skipn_app, skipn_all, Nat.sub_diag. cbn [skipn app].
    rewrite IH by (simpl in Hfuel; lia). reflexivity.
Qed.

Lemma encode_faces_length (fs : list (list Z)) :
  (List.length fs <= List.length (encode_faces fs))%nat.
Proof.
  unfold encode_faces.
  induction fs as [|face fs IH]; cbn [flat_map List.length app]; [lia|].
  rewrite length_app. lia.
Qed.

Lemma encode_faces_flat_map {A : Type} (g : A -> list (list Z)) (xs : list A) :
  encode_faces (flat_map g xs) = flat_map (fun a => encode_faces (g a)) xs.
Proof.
  unfold encode_faces.
  induction xs as [|a xs IH]; simpl; [reflexivity|].
  rewrite flat_map_app, IH. reflexivity.
Qed.

(** ** The tube mesher as a comprehension *)

Section MesherFacts.

Variables math_cos math_sin : float -> float.
Variable math_pow : float -> float -> float.

Lemma mesher_unfold (self : RebarGroup) (line : Line) (num_segments : Z) :
  _line_to_cylinder_mesh math_cos math_sin math_pow self line num_segments
  = (frame <- segment_frame math_pow line ;;
     circle_vertices <-
       circle math_cos math_sin
         (bar_diameter (shape self) / 2000)%float num_segments ;;
     let vs := tube_vertices frame circle_vertices in
     Ok {| vertices := vs;
           faces := encode_faces
                      (tube_faces num_segments (len vs / 2 - 1) (len vs - 1)) |}).
Proof.
  unfold _line_to_cylinder_mesh, segment_frame.
  destruct (getattr x (start line)) as [sx|]; [|reflexivity].
  destruct (getattr y (start line)) as [sy|]; [|reflexivity].
  destruct (getattr z (start line)) as [sz|]; [|reflexivity].
  destruct (getattr x (end_ line)) as [ex|]; [|reflexivity].
  destruct (getattr y (end_ line)) as [ey|]; [|reflexivity].
  destruct (getattr z (end_ line)) as [ez|]; [|reflexivity].
  cbn [bind idx0 idx1 idx2 fst snd].
  destruct (pow2 math_pow (ex - sx)) as [q0|]; [|reflexivity].
  destruct (pow2 math_pow (ey - sy)) as [q1|]; [|reflexivity].
  destruct (pow2 math_pow (ez - sz)) as [q2|]; [|reflexivity].
  cbn [bind].
  destruct (math_sqrt (0 + q0 + q1 + q2)) as [length|]; [|reflexivity].
  cbn [bind].
  destruct (truediv (ex - sx) length) as [u0|]; [|reflexivity].
  destruct (truediv (ey - sy) length) as [u1|]; [|reflexivity].
  destruct (truediv (ez - sz) length) as [u2|]; [|reflexivity].
  cbn [bind]. rewrite for_each_append. unfold circle.
  destruct (mapM _ (range num_segments)) as [cvs|]; [|reflexivity].
  cbn [bind app tube_vertices].
  rewrite (fold_left_collect
             (ring_pair (sx, sy, sz) (u0, u1, u2) length)) by reflexivity.
  cbn [app].
  rewrite (fold_left_collect (side_faces num_segments)
             (fun acc i => acc ++ side_faces num_segments i))
    by reflexivity.
  cbn [app].
  set (vs := flat_map _ cvs).
  rewrite (fold_left_collect
             (cap_faces num_segments (len vs / 2 - 1) (len vs - 1)))
    by reflexivity.
  unfold tube_faces. unfold encode_faces at 1.
  rewrite flat_map_app. fold encode_faces.
  rewrite !encode_faces_flat_map. reflexivity.
Qed.

Lemma ring_pair_length (sp ud : vec3) (l : float) (v : vec3) :
  List.length (ring_pair sp ud l v) = 6%nat.
Proof. reflexivity. Qed.

Lemma circle_length (radius : float) (num_segments : Z) (cvs : list vec3) :
  circle math_cos math_sin radius num_segments = Ok cvs ->
  0 <= num_segments -> len cvs = num_segments.
Proof.
  intros H HN. unfold circle in H. apply mapM_length in H.
  unfold len. rewrite H, range_length_nat. lia.
Qed.

Lemma tube_vertices_len (frame : vec3 * vec3 * float) (cvs : list vec3) :
  len (tube_vertices frame cvs) = 6 * len cvs.
Proof.
  destruct frame as [[sp ud] l]. unfold tube_vertices, len.
  rewrite (flat_map_length_const _ 6) by (intros; apply ring_pair_length).
  lia.
Qed.

Lemma side_triangles_len (num_segments : Z) :
  0 <= num_segments ->
  len (flat_map (side_triangles num_segments) (range num_segments))
  = 2 * num_segments.
Proof.
  intros HN. unfold len.
  rewrite (flat_map_length_const _ 2) by reflexivity.
  pose proof (range_length num_segments) as Hr. unfold len in Hr. lia.
Qed.

Lemma cap_triangles_len (num_segments tc bc : Z) :
  0 <= num_segments ->
  len (flat_map (cap_triangles num_segments tc bc) (range num_segments))
  = 2 * num_segments.
Proof.
  intros HN. unfold len.
  rewrite (flat_map_length_const _ 2) by reflexivity.
  pose proof (range_length num_segments) as Hr. unfold len in Hr. lia.
Qed.

Lemma tube_faces_triangles (num_segments tc bc : Z) (face : list Z) :
  In face (tube_faces num_segments tc bc) -> len face = 3.
Proof.
  unfold tube_faces. rewrite in_app_iff, !in_flat_map.
  intros [(i & _ & Hi)|(i & _ & Hi)];
    destruct Hi as [<-|[<-|[]]]; reflexivity.
Qed.

(** What a returned mesh looks like. *)
Lemma mesher_ok_inv (self : RebarGroup) (line : Line) (num_segments : Z)
    (m : Mesh) :
  0 <= num_segments ->
  _line_to_cylinder_mesh math_cos math_sin math_pow self line num_segments
  = Ok m ->
  len (vertices m) = 6 * num_segments
  /\ mesh_faces m
     = Some (tube_faces num_segments
               (3 * num_segments - 1) (6 * num_segments - 1)).
Proof.
  intros HN Hm. rewrite mesher_unfold in Hm.
  destruct (segment_frame math_pow line) as [frame|e]; [|discriminate].
  cbn [bind] in Hm.
  destruct (circle _ _ _ _) as [cvs|e] eqn:Ec; [|discriminate].
  cbn [bind] in Hm. injection Hm as <-. cbn [vertices].
  rewrite tube_vertices_len, (circle_length _ _ _ Ec HN).
  split; [reflexivity|].
  unfold mesh_faces. cbn [faces].
  replace (6 * num_segments / 2 - 1) with (3 * num_segments - 1).
  2:{ replace (6 * num_segments) with (3 * num_segments * 2) by lia.
      rewrite Z.div_mul by lia. reflexivity. }
  apply face_runs_encode, encode_faces_length.
Qed.

(** The exceptions of the part before the loops, and of the circle loop. *)
Lemma segment_frame_exceptions (line : Line) (e : exn) :
  segment_frame math_pow line = Raise e ->
  e = AttributeError \/ e = OverflowError \/ e = ValueError
  \/ e = ZeroDivisionError.
Proof.
  unfold segment_frame, getattr, pow2, math_sqrt, math_1, truediv.
  intros H.
  repeat match type of H with
         | context [match ?c with _ => _ end] => destruct c; cbn [bind] in H
         | context [if ?c then _ else _] => destruct c; cbn [bind] in H
         end;
    try discriminate; injection H as <-; auto.
Qed.

Lemma circle_vertex_exceptions (radius : float) (N i : Z) (e : exn) :
  0 <= i < N ->
  circle_vertex math_cos math_sin radius N i = Raise e ->
  e = OverflowError \/ e = ValueError \/ e = ZeroDivisionError.
Proof.
  intros Hi. unfold circle_vertex, float_of_int, truediv, math_1. intros H.
  repeat match type of H with
         | context [if ?c then _ else _] => destruct c; cbn [bind] in H
         end;
    try discriminate; injection H as <-; auto.
Qed.

Lemma mesher_exceptions (self : RebarGroup) (line : Line) (N : Z) (e : exn) :
  _line_to_cylinder_mesh math_cos math_sin math_pow self line N = Raise e ->
  e = AttributeError \/ e = OverflowError \/ e = ValueError
  \/ e = ZeroDivisionError.
Proof.
  rewrite mesher_unfold. intros H.
  destruct (segment_frame math_pow line) as [frame|e0] eqn:Ef; cbn [bind] in H.
  - destruct (circle _ _ _ _) as [cvs|e1] eqn:Ec; cbn [bind] in H;
      [discriminate|].
    injection H as <-. unfold circle in Ec.
    destruct (mapM_raise_inv _ _ _ Ec) as (i & Hi & Hc).
    apply in_range in Hi.
    destruct (circle_vertex_exceptions _ _ _ _ Hi Hc) as [->|[->| ->]]; auto.
  - injection H as <-. exact (segment_frame_exceptions _ _ Ef).
Qed.

End MesherFacts.

(** ** Floating-point facts used by the zero-length case *)

Lemma sub_self_finite (a : float) :
  PrimFloat.is_finite a = true -> (a - a)%float = 0%float.
Proof.
  intros H. apply Prim2SF_inj. rewrite FloatAxioms.sub_spec.
  unfold PrimFloat.is_finite, PrimFloat.is_nan, PrimFloat.is_infinity in H.
  rewrite !FloatAxioms.eqb_spec, FloatAxioms.abs_spec in H.
  destruct (Prim2SF a) as [s|s| |s m e].
  - destruct s; reflexivity.
  - destruct s; vm_compute in H; discriminate.
  - vm_compute in H. discriminate.
  - unfold SF64sub, SFsub. rewrite Z.min_id.
    unfold shl_align. rewrite !Z.sub_diag. reflexivity.
Qed.

(** A zero-length direction: no C library call, and a division by 0.0. *)
Lemma segment_frame_zero (math_pow : float -> float -> float) (p : Point) :
  PrimFloat.is_finite (x p) = true ->
  PrimFloat.is_finite (y p) = true ->
  PrimFloat.is_finite (z p) = true ->
  segment_frame math_pow {| start := PointObj p; end_ := PointObj p |}
  = Raise ZeroDivisionError.
Proof.
  intros Hx Hy Hz. unfold segment_frame. cbn [getattr start end_ bind].
  rewrite (sub_self_finite _ Hx), (sub_self_finite _ Hy),
    (sub_self_finite _ Hz).
  reflexivity.
Qed.

(** ** The two generators as comprehensions *)

Section GeneratorFacts.

Variables math_cos math_sin : float -> float.
Variable math_pow : float -> float -> float.
Variable new_Line : list float -> list float -> result Line.

Lemma mapM_build_given (ls : list Line) :
  mapM (build new_Line) (map Given ls) = Ok ls.
Proof.
  induction ls as [|l ls IH]; cbn [map mapM build bind]; [reflexivity|].
  rewrite IH. reflexivity.
Qed.

Lemma group_sources_range (self : RebarGroup) :
  flat_map (fun _ : Z => instance_sources (shape self)) (range (number self))
  = group_sources self.
Proof.
  unfold group_sources. rewrite flat_map_const, range_length_nat.
  reflexivity.
Qed.

(** Line mode builds the sources of the group, in order, and stops at the
    first one that the constructor of [Line] refuses. *)
Lemma line_representation_eq (self : RebarGroup) :
  _generate_line_representation new_Line self
  = mapM (build new_Line) (group_sources self).
Proof.
  rewrite <- group_sources_range.
  unfold _generate_line_representation.
  rewrite (for_each_collect (build new_Line)
             (fun _ => instance_sources (shape self))).
  - destruct (mapM _ _); reflexivity.
  - intros acc _. unfold instance_sources.
    rewrite (fold_left_collect (fun line => [line])) by reflexivity.
    rewrite (flat_map_singleton (fun l => l)), map_id.
    rewrite mapM_app, mapM_build_given. cbn [bind].
    rewrite (for_each_collect (build new_Line) polyline_sources).
    + destruct (mapM _ (flat_map _ _)) as [cs|e]; cbn [bind]; [|reflexivity].
      rewrite app_assoc. reflexivity.
    + intros acc' polyline. unfold polyline_sources.
      rewrite <- flat_map_singleton.
      apply (for_each_collect (build new_Line)
               (fun j => [Sliced (slice (value polyline) j (j + 3))
                                 (slice (value polyline) (j + 3) (j + 6))])).
      intros acc'' j. cbn [mapM build].
      destruct (new_Line _ _); reflexivity.
Qed.

(** Volume mode builds and meshes the sources of the group, one after the
    other, and stops at the first exception. *)
Lemma volumetric_representation_eq (self : RebarGroup) :
  _generate_volumetric_representation math_cos math_sin math_pow new_Line self
  = mapM (build_mesh math_cos math_sin math_pow new_Line self)
         (group_sources self).
Proof.
  rewrite <- group_sources_range.
  unfold _generate_volumetric_representation.
  rewrite (for_each_collect
             (build_mesh math_cos math_sin math_pow new_Line self)
             (fun _ => instance_sources (shape self))).
  - destruct (mapM _ _); reflexivity.
  - intros acc _. unfold instance_sources.
    rewrite (for_each_collect
               (build_mesh math_cos math_sin math_pow new_Line self)
               (fun line => [Given line])).
    2:{ intros acc' line. cbn [mapM]. unfold build_mesh, build, mesh36.
        cbn [bind].
        destruct (_line_to_cylinder_mesh _ _ _ _ _ _); reflexivity. }
    rewrite flat_map_singleton, mapM_app.
    destruct (mapM _ (map Given (lines (shape self)))) as [bs|e];
      cbn [bind]; [|reflexivity].
    rewrite (for_each_collect
               (build_mesh math_cos math_sin math_pow new_Line self)
               polyline_sources).
    + destruct (mapM _ (flat_map _ _)) as [cs|e]; cbn [bind]; [|reflexivity].
      rewrite app_assoc. reflexivity.
    + intros acc' polyline. unfold polyline_sources.
      rewrite <- flat_map_singleton.
      apply (for_each_collect
               (build_mesh math_cos math_sin math_pow new_Line self)
               (fun j => [Sliced (slice (value polyline) j (j + 3))
                                 (slice (value polyline) (j + 3) (j + 6))])).
      intros acc'' j. cbn [mapM]. unfold build_mesh, build, mesh36.
      destruct (new_Line _ _) as [line|e]; cbn [bind]; [|reflexivity].
      destruct (_line_to_cylinder_mesh _ _ _ _ _ _); reflexivity.
Qed.

Lemma line_mode_result (self : RebarGroup) :
  String.eqb (representation_mode self) RebarRepresentationMode.AS_VOLUME
  = false ->
  generate_representation math_cos math_sin math_pow new_Line self
  = (ls <- mapM (build new_Line) (group_sources self) ;;
     Ok (map LineObj ls)).
Proof.
  intros H. unfold generate_representation.
  rewrite H, line_representation_eq. reflexivity.
Qed.

Lemma volume_mode_result (self : RebarGroup) :
  generate_representation math_cos math_sin math_pow new_Line
    (with_mode self RebarRepresentationMode.AS_VOLUME)
  = (meshes <- mapM (build_mesh math_cos math_sin math_pow new_Line self)
                 (group_sources self) ;;
     Ok (map MeshObj meshes)).
Proof.
  unfold generate_representation.
  cbn [with_mode representation_mode].
  change (String.eqb RebarRepresentationMode.AS_VOLUME
            RebarRepresentationMode.AS_VOLUME) with true.
  cbv iota. rewrite volumetric_representation_eq. reflexivity.
Qed.

(** Volume mode against line mode: it returns exactly when line mode returns
    and every line meshes. *)
Lemma volume_mode_via_lines (self : RebarGroup) (ls : list Line) :
  _generate_line_representation new_Line self = Ok ls ->
  generate_representation math_cos math_sin math_pow new_Line
    (with_mode self RebarRepresentationMode.AS_VOLUME)
  = (meshes <- mapM (mesh36 math_cos math_sin math_pow self) ls ;;
     Ok (map MeshObj meshes)).
Proof.
  intros H. rewrite line_representation_eq in H.
  rewrite volume_mode_result. unfold build_mesh.
  rewrite (mapM_bind_eq _ _ _ _ H). reflexivity.
Qed.

Lemma volume_mode_ok_inv (self : RebarGroup) (ms : list Base) :
  generate_representation math_cos math_sin math_pow new_Line
    (with_mode self RebarRepresentationMode.AS_VOLUME) = Ok ms ->
  exists ls meshes,
    _generate_line_representation new_Line self = Ok ls
    /\ mapM (mesh36 math_cos math_sin math_pow self) ls = Ok meshes
    /\ ms = map MeshObj meshes.
Proof.
  intros H. rewrite volume_mode_result in H.
  destruct (mapM _ (group_sources self)) as [meshes|e] eqn:E;
    cbn [bind] in H; [|discriminate].
  injection H as <-. unfold build_mesh in E.
  destruct (mapM_bind_split _ _ _ _ E) as (ls & Hl & Hm).
  exists ls, meshes. rewrite line_representation_eq.
  repeat split; assumption.
Qed.

Lemma group_sources_nonpos (self : RebarGroup) :
  number self <= 0 -> group_sources self = [].
Proof.
  intros H. unfold group_sources.
  replace (Z.to_nat (number self)) with 0%nat by lia. reflexivity.
Qed.

Lemma group_sources_pos (self : RebarGroup) :
  1 <= number self ->
  exists rest, group_sources self = instance_sources (shape self) ++ rest.
Proof.
  intros H. unfold group_sources.
  destruct (Z.to_nat (number self)) as [|k] eqn:E; [lia|].
  cbn [repeat List.concat]. eexists. reflexivity.
Qed.

Lemma with_mode_sources (self : RebarGroup) (mode : string) :
  group_sources (with_mode self mode) = group_sources self.
Proof. reflexivity. Qed.

End GeneratorFacts.

(** Polylines of at most one point have no source. *)
Lemma polyline_sources_short (polyline : Polyline) :
  len (value polyline) <= 3 -> polyline_sources polyline = [].
Proof.
  intros HL. unfold polyline_sources.
  rewrite range3_nonpos by lia. reflexivity.
Qed.

Lemma polyline_sources_len (polyline : Polyline) :
  len (polyline_sources polyline) = segment_count (len (value polyline)).
Proof.
  unfold polyline_sources, segment_count, len at 1.
  rewrite length_map. pose proof (range3_length (len (value polyline) - 3)) as H.
  unfold len at 1 in H. rewrite H. f_equal. f_equal. lia.
Qed.

Lemma flat_map_sources_short (pls : list Polyline) :
  (forall polyline, In polyline pls -> len (value polyline) <= 3) ->
  flat_map polyline_sources pls = [].
Proof.
  intros H. induction pls as [|pl pls IH]; [reflexivity|].
  cbn [flat_map]. rewrite polyline_sources_short by (apply H; left; reflexivity).
  apply IH. intros; apply H; right; assumption.
Qed.

(** With polylines of at most one point, the sources are the lines. *)
Lemma group_sources_lines_only (self : RebarGroup) :
  (forall polyline, In polyline (polylines (shape self)) ->
     len (value polyline) <= 3) ->
  group_sources self
  = map Given (List.concat (repeat (lines (shape self))
                              (Z.to_nat (number self)))).
Proof.
  intros H. unfold group_sources, instance_sources.
  rewrite (flat_map_sources_short _ H), app_nil_r, concat_repeat_map.
  reflexivity.
Qed.

(** A polyline with at least two points has a first source. *)
Lemma polyline_sources_first (polyline : Polyline) :
  3 < len (value polyline) ->
  exists rest,
    polyline_sources polyline
    = Sliced (slice (value polyline) 0 3) (slice (value polyline) 3 6) :: rest.
Proof.
  intros HL. unfold polyline_sources, range3.
  assert (Hq : 0 < (len (value polyline) - 3 - 0 + 3 - 1) / 3).
  { apply Z.div_str_pos. lia. }
  destruct (Z.to_nat _) as [|k] eqn:E; [lia|].
  cbn [seq map]. eexists. reflexivity.
Qed.

(** Membership in the sources of a group. *)
Lemma in_group_sources (self : RebarGroup) (src : segment_source) :
  In src (group_sources self)
  <-> 1 <= number self /\ In src (instance_sources (shape self)).
Proof.
  unfold group_sources. split.
  - intros H. apply in_concat in H. destruct H as (l & Hl & Hin).
    apply repeat_spec in Hl as Heq. subst l. split; [|exact Hin].
    destruct (Z.to_nat (number self)) eqn:E; [contradiction|lia].
  - intros [Hn Hin]. destruct (Z.to_nat (number self)) as [|k] eqn:E; [lia|].
    cbn [repeat List.concat]. apply in_or_app. left. exact Hin.
Qed.

Lemma in_instance_sources_polyline (sh : RebarShape) (polyline : Polyline) :
  In polyline (polylines sh) -> 3 < len (value polyline) ->
  In (Sliced (slice (value polyline) 0 3) (slice (value polyline) 3 6))
     (instance_sources sh).
Proof.
  intros Hin HL. unfold instance_sources. apply in_or_app. right.
  apply in_flat_map. exists polyline. split; [exact Hin|].
  destruct (polyline_sources_first polyline HL) as [rest ->].
  left. reflexivity.
Qed.

(** A traversal whose failures are all the same exception. *)
Lemma mapM_raises_only {A B : Type} (f : A -> result B) (xs : list A) (a : A)
    (e0 e : exn) :
  (forall a' e', In a' xs -> f a' = Raise e' -> e' = e) ->
  In a xs -> f a = Raise e0 ->
  mapM f xs = Raise e.
Proof.
  intros Hall Hin Hf.
  destruct (mapM_raises f xs a e0 Hin Hf) as [e1 H1]. rewrite H1. f_equal.
  destruct (mapM_raise_inv f xs e1 H1) as (a' & Hin' & Hf').
  exact (Hall a' e1 Hin' Hf').
Qed.

(** * The tube mesher *)

(** C1 (as amended): a mesh returned for [num_segments = N] has [6N] vertex
    scalars, that is [2N] ring vertices, and its face buffer decodes to
    [4N] triangles: [2N] side triangles followed by [2N] cap triangles. *)
Theorem tube_mesh_counts (math_cos math_sin : float -> float)
    (math_pow : float -> float -> float)
    (self : RebarGroup) (line : Line) (N : Z) (m : Mesh) :
  0 <= N ->
  _line_to_cylinder_mesh math_cos math_sin math_pow self line N = Ok m ->
  len (vertices m) = 6 * N
  /\ vertex_count m = 2 * N
  /\ exists side cap,
       mesh_faces m = Some (side ++ cap)
       /\ side = flat_map (side_triangles N) (range N)
       /\ cap = flat_map (cap_triangles N (3 * N - 1) (6 * N - 1)) (range N)
       /\ len side = 2 * N
       /\ len cap = 2 * N
       /\ len (side ++ cap) = 4 * N
       /\ (forall face, In face (side ++ cap) -> len face = 3).
Proof.
  intros HN Hm.
  destruct (mesher_ok_inv math_cos math_sin math_pow self line N m HN Hm)
    as [Hv Hf].
  split; [exact Hv|]. split.
  { unfold vertex_count. rewrite Hv.
    replace (6 * N) with (2 * N * 3) by lia. apply Z.div_mul. lia. }
  exists (flat_map (side_triangles N) (range N)).
  exists (flat_map (cap_triangles N (3 * N - 1) (6 * N - 1)) (range N)).
  pose proof (side_triangles_len N HN) as Hs.
  pose proof (cap_triangles_len N (3 * N - 1) (6 * N - 1) HN) as Hc.
  repeat split; try assumption; try reflexivity.
  - unfold len in *. rewrite length_app. lia.
  - apply tube_faces_triangles.
Qed.

Lemma tube_mesh_counts_witness :
  exists m, mesher (scenario_group "AsVolume") unit_z_line 4 = Ok m
            /\ len (vertices m) = 24 /\ vertex_count m = 8
            /\ option_map len (mesh_faces m) = Some 16.
Proof.
  destruct (mesher (scenario_group "AsVolume") unit_z_line 4) as [m|e] eqn:E;
    [|vm_compute in E; discriminate].
  exists m. split; [reflexivity|].
  destruct (tube_mesh_counts series_cos series_sin product_pow
              (scenario_group "AsVolume") unit_z_line 4 m)
    as (Hv & Hc & side & cap & Hf & _ & _ & _ & _ & Hl & _);
    [lia | exact E |].
  rewrite Hf. cbn [option_map]. rewrite Hl.
  repeat split; assumption.
Defined.

(** The face count of the scenario of section 8 is 16, not [6 * 4]. *)
Lemma tube_mesh_faces_not_6N :
  exists m fs,
    mesher (scenario_group "AsVolume") unit_z_line 4 = Ok m
    /\ vertex_count m = 2 * 4
    /\ mesh_faces m = Some fs
    /\ len fs = 16
    /\ len fs <> 6 * 4.
Proof.
  eexists. eexists.
  split; [vm_compute; reflexivity|].
  split; [vm_compute; reflexivity|].
  split; [vm_compute; reflexivity|].
  split; [reflexivity|discriminate].
Qed.

(** C2 (what the code does): for [N >= 1] the mesh has [2N] vertices,
    indices [0 .. 2N-1], and its cap triangles use the centre indices
    [6N-1] and [3N-1], which are both past the last vertex. *)
Theorem cap_centers_out_of_range (math_cos math_sin : float -> float)
    (math_pow : float -> float -> float)
    (self : RebarGroup) (line : Line) (N : Z) (m : Mesh) :
  1 <= N ->
  _line_to_cylinder_mesh math_cos math_sin math_pow self line N = Ok m ->
  vertex_count m = 2 * N
  /\ exists fs,
       mesh_faces m = Some fs
       /\ In [6 * N - 1; 0; 2 mod (N * 2)] fs
       /\ face_in_range m [6 * N - 1; 0; 2 mod (N * 2)] = false
       /\ In [3 * N - 1; 1 mod (N * 2); 1] fs
       /\ face_in_range m [3 * N - 1; 1 mod (N * 2); 1] = false.
Proof.
  intros HN Hm.
  destruct (mesher_ok_inv math_cos math_sin math_pow self line N m)
    as [Hv Hf]; [lia | exact Hm |].
  assert (Hc : vertex_count m = 2 * N).
  { unfold vertex_count. rewrite Hv.
    replace (6 * N) with (2 * N * 3) by lia. apply Z.div_mul. lia. }
  split; [exact Hc|].
  eexists. split; [exact Hf|].
  assert (H0 : In 0 (range N)) by (apply in_range; lia).
  assert (Hb : (6 * N - 1 <? vertex_count m) = false)
    by (apply Z.ltb_ge; lia).
  assert (Ht : (3 * N - 1 <? vertex_count m) = false)
    by (apply Z.ltb_ge; lia).
  unfold tube_faces. repeat split.
  - apply in_or_app. right. apply in_flat_map. exists 0.
    split; [exact H0|]. left. reflexivity.
  - cbn [face_in_range forallb]. rewrite Hb, andb_false_r. reflexivity.
  - apply in_or_app. right. apply in_flat_map. exists 0.
    split; [exact H0|]. right. left. reflexivity.
  - cbn [face_in_range forallb]. rewrite Ht, andb_false_r. reflexivity.
Qed.

Lemma cap_centers_out_of_range_witness :
  exists m fs,
    mesher (scenario_group "AsVolume") unit_z_line 4 = Ok m
    /\ vertex_count m = 8
    /\ mesh_faces m = Some fs
    /\ In [23; 0; 2] fs /\ face_in_range m [23; 0; 2] = false
    /\ In [11; 1; 1] fs /\ face_in_range m [11; 1; 1] = false.
Proof.
  destruct (mesher (scenario_group "AsVolume") unit_z_line 4) as [m|e] eqn:E;
    [|vm_compute in E; discriminate].
  destruct (cap_centers_out_of_range series_cos series_sin product_pow
              (scenario_group "AsVolume") unit_z_line 4 m)
    as (Hc & fs & Hf & Hb1 & Hb2 & Ht1 & Ht2); [lia | exact E |].
  exists m, fs. repeat split; assumption.
Defined.

(** The side triangles, and the ring corners of the cap triangles, do stay
    within [0 .. 2N-1]: the two centres are the only indices out of range. *)
Lemma side_triangles_in_range (N i k : Z) (face : list Z) :
  0 <= i < N ->
  In face (side_triangles N i) -> In k face -> 0 <= k < 2 * N.
Proof.
  intros Hi Hface Hk.
  assert (H2 : 0 <= (i * 2 + 2) mod (N * 2) < N * 2)
    by (apply Z.mod_pos_bound; lia).
  assert (H3 : 0 <= (i * 2 + 3) mod (N * 2) < N * 2)
    by (apply Z.mod_pos_bound; lia).
  destruct Hface as [<-|[<-|[]]];
    repeat (destruct Hk as [<-|Hk]; [lia|]); destruct Hk.
Qed.

Lemma cap_ring_corners_in_range (N tc bc i k : Z) (face : list Z) :
  0 <= i < N ->
  In face (cap_triangles N tc bc i) -> In k (tl face) -> 0 <= k < 2 * N.
Proof.
  intros Hi Hface Hk.
  assert (H2 : 0 <= (i * 2 + 2) mod (N * 2) < N * 2)
    by (apply Z.mod_pos_bound; lia).
  assert (H1 : 0 <= (i * 2 + 1) mod (N * 2) < N * 2)
    by (apply Z.mod_pos_bound; lia).
  destruct Hface as [<-|[<-|[]]]; cbn [tl] in Hk;
    repeat (destruct Hk as [<-|Hk]; [lia|]); destruct Hk.
Qed.

(** C8 (what the code does): for [N >= 1] the cap triangles are, for each
    [i], [(bottom_center, 2i, (2i+2) mod 2N)] and
    [(top_center, (2i+1) mod 2N, 2i+1)] with
    [bottom_center = len(vertices) - 1 = 6N - 1] and
    [top_center = len(vertices) // 2 - 1 = 3N - 1] taken over the flat scalar
    list; [bottom_center] is not [len(vertices)/3 - 1 = 2N - 1]. *)
Theorem cap_fan_centers (math_cos math_sin : float -> float)
    (math_pow : float -> float -> float)
    (self : RebarGroup) (line : Line) (N : Z) (m : Mesh) :
  1 <= N ->
  _line_to_cylinder_mesh math_cos math_sin math_pow self line N = Ok m ->
  exists side,
    mesh_faces m
    = Some (side ++ flat_map (cap_triangles N (len (vertices m) / 2 - 1)
                                (len (vertices m) - 1)) (range N))
    /\ len side = 2 * N
    /\ len (vertices m) - 1 = 6 * N - 1
    /\ len (vertices m) / 2 - 1 = 3 * N - 1
    /\ len (vertices m) / 3 - 1 = 2 * N - 1
    /\ len (vertices m) - 1 <> len (vertices m) / 3 - 1.
Proof.
  intros HN Hm.
  destruct (mesher_ok_inv math_cos math_sin math_pow self line N m)
    as [Hv Hf]; [lia | exact Hm |].
  assert (H2 : len (vertices m) / 2 = 3 * N).
  { rewrite Hv. replace (6 * N) with (3 * N * 2) by lia.
    apply Z.div_mul. lia. }
  assert (H3 : len (vertices m) / 3 = 2 * N).
  { rewrite Hv. replace (6 * N) with (2 * N * 3) by lia.
    apply Z.div_mul. lia. }
  exists (flat_map (side_triangles N) (range N)).
  rewrite H2, H3, Hv. split; [exact Hf|].
  split; [apply side_triangles_len; lia|].
  repeat split; lia.
Qed.

Lemma cap_fan_centers_witness :
  exists m side,
    mesher (scenario_group "AsVolume") unit_z_line 4 = Ok m
    /\ mesh_faces m
       = Some (side ++ [[23; 0; 2]; [11; 1; 1]; [23; 2; 4]; [11; 3; 3];
                        [23; 4; 6]; [11; 5; 5]; [23; 6; 0]; [11; 7; 7]])
    /\ len (vertices m) / 3 - 1 = 7.
Proof.
  destruct (mesher (scenario_group "AsVolume") unit_z_line 4) as [m|e] eqn:E;
    [|vm_compute in E; discriminate].
  destruct (cap_fan_centers series_cos series_sin product_pow
              (scenario_group "AsVolume") unit_z_line 4 m)
    as (side & Hf & _ & Hb & Ht & Hp & _); [lia | exact E |].
  exists m, side. split; [reflexivity|].
  rewrite Hf, Hb, Ht, Hp. split; reflexivity.
Defined.

(** The top cap repeats a ring vertex: [(2i+1) mod 2N] is [2i+1] itself. *)
Lemma top_cap_triangle_repeats_vertex (N tc bc i : Z) :
  0 <= i < N ->
  cap_triangles N tc bc i
  = [ [bc; i * 2; (i * 2 + 2) mod (N * 2)]; [tc; i * 2 + 1; i * 2 + 1] ].
Proof.
  intros Hi. unfold cap_triangles.
  rewrite (Z.mod_small (i * 2 + 1)) by lia. reflexivity.
Qed.

(** * Zero-length segments *)

(** C4 (as amended): a segment whose two endpoints are the same [Point],
    with finite coordinates, makes the mesher raise [ZeroDivisionError] at
    [d / length]; and volume-mode generation raises it when such a segment is
    the first line of the shape and [number >= 1]. *)
Theorem zero_length_segment_raises (math_cos math_sin : float -> float)
    (math_pow : float -> float -> float)
    (new_Line : list float -> list float -> result Line)
    (self : RebarGroup) (p : Point) (N : Z) :
  PrimFloat.is_finite (x p) = true ->
  PrimFloat.is_finite (y p) = true ->
  PrimFloat.is_finite (z p) = true ->
  _line_to_cylinder_mesh math_cos math_sin math_pow self
    {| start := PointObj p; end_ := PointObj p |} N
  = Raise ZeroDivisionError
  /\ forall rest,
       lines (shape self)
       = {| start := PointObj p; end_ := PointObj p |} :: rest ->
       1 <= number self ->
       generate_representation math_cos math_sin math_pow new_Line
         (with_mode self RebarRepresentationMode.AS_VOLUME)
       = Raise ZeroDivisionError.
Proof.
  intros Hx Hy Hz.
  assert (Hmesh : forall n,
            _line_to_cylinder_mesh math_cos math_sin math_pow self
              {| start := PointObj p; end_ := PointObj p |} n
            = Raise ZeroDivisionError).
  { intros n. rewrite mesher_unfold.
    rewrite (segment_frame_zero math_pow p Hx Hy Hz). reflexivity. }
  split; [apply Hmesh|].
  intros rest Hlines Hnum. rewrite volume_mode_result.
  destruct (group_sources_pos self Hnum) as [more ->].
  unfold instance_sources. rewrite Hlines.
  cbn [map app mapM]. unfold build_mesh at 1, build, mesh36. cbn [bind].
  rewrite Hmesh. reflexivity.
Qed.

Lemma zero_length_segment_raises_witness :
  mesher (mk_group [point_line] [] 20 1 "AsVolume") point_line 36
  = Raise ZeroDivisionError
  /\ generate (mk_group [point_line] [] 20 1 "AsVolume")
     = Raise ZeroDivisionError.
Proof.
  destruct (zero_length_segment_raises series_cos series_sin product_pow
              checked_Line
              (mk_group [point_line] [] 20 1 "AsVolume")
              {| x := 1; y := 2; z := 3 |} 36)
    as [Hm Hg]; try reflexivity.
  split; [exact Hm|].
  apply (Hg []); [reflexivity|cbn; lia].
Defined.

(** The error of a zero-length segment is not [DegenerateGeometry]. *)
Lemma zero_length_not_DegenerateGeometry :
  mesher (mk_group [point_line] [] 20 1 "AsVolume") point_line 36
  <> Raise DegenerateGeometry
  /\ generate (mk_group [point_line] [] 20 1 "AsVolume")
     <> Raise DegenerateGeometry.
Proof.
  split; vm_compute; discriminate.
Qed.

(** * The multiplier *)

(** C10: with [number <= 0] both modes return the empty list; nothing is
    raised. *)
Theorem nonpositive_number_empty (math_cos math_sin : float -> float)
    (math_pow : float -> float -> float)
    (new_Line : list float -> list float -> result Line)
    (self : RebarGroup) :
  number self <= 0 ->
  generate_representation math_cos math_sin math_pow new_Line
    (with_mode self RebarRepresentationMode.AS_LINE) = Ok []
  /\ generate_representation math_cos math_sin math_pow new_Line
       (with_mode self RebarRepresentationMode.AS_VOLUME) = Ok [].
Proof.
  intros Hn. split.
  - rewrite line_mode_result by reflexivity.
    rewrite with_mode_sources, (group_sources_nonpos _ Hn). reflexivity.
  - rewrite volume_mode_result, (group_sources_nonpos _ Hn). reflexivity.
Qed.

Lemma nonpositive_number_empty_witness :
  generate (with_mode (mk_group [point_line] [[0; 0; 0; 1; 0; 0]%float] 20 (-2)
                         "AsLine") "AsLine") = Ok []
  /\ generate (with_mode (mk_group [point_line] [[0; 0; 0; 1; 0; 0]%float] 20
                            (-2) "AsLine") "AsVolume") = Ok [].
Proof.
  apply (nonpositive_number_empty series_cos series_sin product_pow
           checked_Line
           (mk_group [point_line] [[0; 0; 0; 1; 0; 0]%float] 20 (-2) "AsLine")).
  cbn. lia.
Defined.

(** C3 (as amended): constructing a group with a negative [number] succeeds
    in every mode and stores the empty representation; no error is raised. *)
Theorem negative_number_constructs_empty (math_cos math_sin : float -> float)
    (math_pow : float -> float -> float)
    (new_Line : list float -> list float -> result Line)
    (sh : RebarShape) (n : Z) (first_bar last_bar : bool) (mode : string) :
  n < 0 ->
  exists g,
    RebarGroup_init math_cos math_sin math_pow new_Line
      sh n first_bar last_bar mode = Ok g
    /\ representation g = []
    /\ number g = n.
Proof.
  intros Hn. unfold RebarGroup_init, generate_representation.
  cbn [representation_mode].
  rewrite volumetric_representation_eq, line_representation_eq.
  rewrite group_sources_nonpos by (cbn [number]; lia).
  destruct (String.eqb mode RebarRepresentationMode.AS_VOLUME);
    cbn [mapM bind map]; eexists; repeat split.
Qed.

Lemma negative_number_constructs_empty_witness :
  exists g,
    RebarGroup_init series_cos series_sin product_pow checked_Line
      {| lines := [unit_z_line]; polylines := []; bar_diameter := 20 |}
      (-1) true true "AsVolume" = Ok g
    /\ representation g = []
    /\ number g = -1.
Proof.
  apply (negative_number_constructs_empty series_cos series_sin product_pow
           checked_Line
           {| lines := [unit_z_line]; polylines := []; bar_diameter := 20 |}
           (-1) true true "AsVolume").
  lia.
Defined.

(** A negative [number] does not fail with [InvalidArgument], in either
    mode. *)
Lemma negative_number_no_InvalidArgument :
  generate (mk_group [unit_z_line] [] 20 (-1) "AsLine") = Ok []
  /\ generate (mk_group [unit_z_line] [] 20 (-1) "AsLine")
     <> Raise InvalidArgument
  /\ generate (mk_group [unit_z_line] [] 20 (-1) "AsVolume") = Ok []
  /\ generate (mk_group [unit_z_line] [] 20 (-1) "AsVolume")
     <> Raise InvalidArgument.
Proof.
  repeat split; try (vm_compute; discriminate); reflexivity.
Qed.

(** * Mode dispatch *)




(** * Line mode against volume mode *)

(** C6 (as amended): whenever volume mode returns, it returns one mesh per
    line of the line-mode result for the same shape and number, in the same
    order: mesh [i] is the tube of line [i]. *)
Theorem volume_count_eq_line_count (math_cos math_sin : float -> float)
    (math_pow : float -> float -> float)
    (new_Line : list float -> list float -> result Line)
    (self : RebarGroup) (ms : list Base) :
  generate_representation math_cos math_sin math_pow new_Line
    (with_mode self RebarRepresentationMode.AS_VOLUME) = Ok ms ->
  exists (ls : list Line) (meshes : list Mesh),
    generate_representation math_cos math_sin math_pow new_Line
      (with_mode self RebarRepresentationMode.AS_LINE) = Ok (map LineObj ls)
    /\ ms = map MeshObj meshes
    /\ mapM (fun line =>
               _line_to_cylinder_mesh math_cos math_sin math_pow self line 36)
            ls
       = Ok meshes
    /\ len ms = len (map LineObj ls).
Proof.
  intros Hv.
  destruct (volume_mode_ok_inv _ _ _ _ _ _ Hv) as (ls & meshes & Hl & Hm & ->).
  exists ls, meshes.
  split.
  { rewrite line_mode_result by reflexivity. rewrite with_mode_sources.
    rewrite line_representation_eq in Hl. rewrite Hl. reflexivity. }
  split; [reflexivity|]. split; [exact Hm|].
  unfold len. rewrite !length_map. f_equal.
  apply (mapM_length _ _ _ Hm).
Qed.

Lemma volume_count_eq_line_count_witness :
  exists ms ls,
    generate (with_mode (scenario_group "AsLine") "AsVolume") = Ok ms
    /\ generate (with_mode (scenario_group "AsLine") "AsLine")
       = Ok (map LineObj ls)
    /\ len ms = len (map LineObj ls).
Proof.
  destruct (generate (with_mode (scenario_group "AsLine") "AsVolume"))
    as [ms|e] eqn:E; [|vm_compute in E; discriminate].
  destruct (volume_count_eq_line_count series_cos series_sin product_pow
              checked_Line (scenario_group "AsLine") ms E)
    as (ls & meshes & Hl & _ & _ & Hc).
  exists ms, ls. split; [reflexivity|]. split; [exact Hl|exact Hc].
Defined.

(** The scenario of section 8: two meshes, for two lines. *)
Lemma scenario_two_meshes :
  exists m,
    generate (scenario_group "AsVolume") = Ok [MeshObj m; MeshObj m]
    /\ generate (scenario_group "AsLine")
       = Ok [LineObj unit_z_line; LineObj unit_z_line].
Proof.
  eexists. split; [vm_compute; reflexivity|reflexivity].
Qed.

(** One zero-length line: line mode returns one segment, volume mode
    returns no mesh at all. *)
Lemma volume_count_differs_on_degenerate_line :
  exists ls,
    generate (mk_group [point_line] [] 20 1 "AsLine") = Ok ls
    /\ len ls = 1
    /\ generate (mk_group [point_line] [] 20 1 "AsVolume")
       = Raise ZeroDivisionError
    /\ forall ms,
         generate (mk_group [point_line] [] 20 1 "AsVolume") = Ok ms ->
         len ms <> len ls.
Proof.
  eexists. split; [vm_compute; reflexivity|].
  split; [reflexivity|].
  split; [vm_compute; reflexivity|].
  intros ms H. vm_compute in H. discriminate.
Qed.

(** When line mode returns and every line of its result can be meshed,
    volume mode returns. *)
Lemma volume_returns (math_cos math_sin : float -> float)
    (math_pow : float -> float -> float)
    (new_Line : list float -> list float -> result Line)
    (self : RebarGroup) (ls : list Line) (tube : Line -> Mesh) :
  _generate_line_representation new_Line self = Ok ls ->
  (forall line, In line ls ->
     _line_to_cylinder_mesh math_cos math_sin math_pow self line 36
     = Ok (tube line)) ->
  generate_representation math_cos math_sin math_pow new_Line
    (with_mode self RebarRepresentationMode.AS_VOLUME)
  = Ok (map MeshObj (map tube ls)).
Proof.
  intros Hl H. rewrite (volume_mode_via_lines _ _ _ _ _ _ Hl).
  unfold mesh36. rewrite (mapM_all_ok _ tube) by exact H. reflexivity.
Qed.

(** * Polylines *)

(** C5 (what the code does): when the constructor of [Line] refuses
    coordinate lists, as the library's does, a polyline of at least two
    points makes line mode raise [SpeckleException] for every
    [number >= 1], and volume mode raise too: [SpeckleException] as well when
    the lines of the shape can all be meshed.  No segment is emitted. *)
Theorem polyline_volume_mode_raises (math_cos math_sin : float -> float)
    (math_pow : float -> float -> float)
    (new_Line : list float -> list float -> result Line)
    (self : RebarGroup) (polyline : Polyline) :
  (forall start_point end_point,
     new_Line start_point end_point = Raise SpeckleException) ->
  In polyline (polylines (shape self)) ->
  3 < len (value polyline) ->
  1 <= number self ->
  generate_representation math_cos math_sin math_pow new_Line
    (with_mode self RebarRepresentationMode.AS_LINE) = Raise SpeckleException
  /\ (exists e,
        generate_representation math_cos math_sin math_pow new_Line
          (with_mode self RebarRepresentationMode.AS_VOLUME) = Raise e)
  /\ ((forall line, In line (lines (shape self)) ->
         exists m,
           _line_to_cylinder_mesh math_cos math_sin math_pow self line 36
           = Ok m) ->
      generate_representation math_cos math_sin math_pow new_Line
        (with_mode self RebarRepresentationMode.AS_VOLUME)
      = Raise SpeckleException).
Proof.
  intros Hnew Hin HL Hn.
  set (src := Sliced (slice (value polyline) 0 3) (slice (value polyline) 3 6)).
  assert (Hsrc : In src (group_sources self)).
  { apply in_group_sources. split; [exact Hn|].
    apply in_instance_sources_polyline; assumption. }
  assert (Hb : build new_Line src = Raise SpeckleException) by apply Hnew.
  assert (Hbm : build_mesh math_cos math_sin math_pow new_Line self src
                = Raise SpeckleException).
  { unfold build_mesh. rewrite Hb. reflexivity. }
  split; [|split].
  - rewrite line_mode_result by reflexivity. rewrite with_mode_sources.
    rewrite (mapM_raises_only (build new_Line) _ src
               SpeckleException SpeckleException); [reflexivity| |exact Hsrc|exact Hb].
    intros [l|s e] e' _ H; cbn [build] in H; [discriminate|].
    rewrite Hnew in H. congruence.
  - rewrite volume_mode_result.
    destruct (mapM_raises _ _ src SpeckleException Hsrc Hbm) as [e He].
    exists e. rewrite He. reflexivity.
  - intros Hlines. rewrite volume_mode_result.
    rewrite (mapM_raises_only
               (build_mesh math_cos math_sin math_pow new_Line self) _ src
               SpeckleException SpeckleException);
      [reflexivity| |exact Hsrc|exact Hbm].
    intros [l|s e] e' Hin' H; unfold build_mesh in H; cbn [build bind] in H.
    + apply in_group_sources in Hin'. destruct Hin' as [_ Hin'].
      unfold instance_sources in Hin'. apply in_app_or in Hin'.
      destruct Hin' as [Hg|Hs].
      * apply in_map_iff in Hg. destruct Hg as (l' & Heq & Hl').
        injection Heq as ->. destruct (Hlines l Hl') as [m Hm].
        unfold mesh36 in H. congruence.
      * apply in_flat_map in Hs. destruct Hs as (pl & _ & Hs).
        unfold polyline_sources in Hs. apply in_map_iff in Hs.
        destruct Hs as (j & Hj & _). discriminate.
    + rewrite Hnew in H. cbn [bind] in H. congruence.
Qed.

Lemma polyline_volume_mode_raises_witness :
  generate (with_mode
              (mk_group [unit_z_line] [[0; 0; 0; 1; 0; 0]%float] 20 1 "AsLine")
              "AsLine") = Raise SpeckleException
  /\ generate (with_mode
                 (mk_group [unit_z_line] [[0; 0; 0; 1; 0; 0]%float] 20 1
                    "AsLine") "AsVolume") = Raise SpeckleException.
Proof.
  destruct (polyline_volume_mode_raises series_cos series_sin product_pow
              checked_Line
              (mk_group [unit_z_line] [[0; 0; 0; 1; 0; 0]%float] 20 1 "AsLine")
              {| value := [0; 0; 0; 1; 0; 0]%float |})
    as (Hl & _ & Hv).
  - reflexivity.
  - left. reflexivity.
  - reflexivity.
  - cbn. lia.
  - split; [exact Hl|]. apply Hv.
    intros line [<-|[]]. eexists. vm_compute. reflexivity.
Defined.

(** Were [Line] a holder that stores the lists it is given, line mode would
    return the segment, and the mesher would fail on it: a list has no
    [.x]. *)
Lemma polyline_with_passive_Line :
  generate_representation series_cos series_sin product_pow passive_Line
    (mk_group [] [[0; 0; 0; 1; 0; 0]%float] 20 1 "AsLine")
  = Ok [LineObj {| start := CoordList [0; 0; 0]%float;
                   end_ := CoordList [1; 0; 0]%float |}]
  /\ generate_representation series_cos series_sin product_pow passive_Line
       (mk_group [] [[0; 0; 0; 1; 0; 0]%float] 20 1 "AsVolume")
     = Raise AttributeError.
Proof. split; reflexivity. Qed.

(** [firstn] and [slice]. *)
Lemma slice_firstn {A : Type} (l : list A) (n i j : Z) :
  0 <= i -> j <= n -> slice (firstn (Z.to_nat n) l) i j = slice l i j.
Proof.
  intros Hi Hj. unfold slice.
  rewrite skipn_firstn_comm, firstn_firstn. f_equal. lia.
Qed.

Lemma range3_snoc (k : Z) (r : Z) :
  1 <= k -> 1 <= r <= 2 ->
  range3 0 (3 * k + r - 3) 3 = range3 0 (3 * k - 3) 3 ++ [3 * k - 3].
Proof.
  intros Hk Hr. unfold range3.
  replace ((3 * k + r - 3 - 0 + 3 - 1) / 3) with k.
  2:{ replace (3 * k + r - 3 - 0 + 3 - 1) with ((r - 1) + k * 3) by lia.
      rewrite Z.div_add by lia. rewrite Z.div_small by lia. lia. }
  replace ((3 * k - 3 - 0 + 3 - 1) / 3) with (k - 1).
  2:{ replace (3 * k - 3 - 0 + 3 - 1) with (2 + (k - 1) * 3) by lia.
      rewrite Z.div_add by lia. reflexivity. }
  replace (Z.to_nat k) with (Z.to_nat (k - 1) + 1)%nat by lia.
  rewrite seq_app, map_app. cbn [seq map Nat.add]. f_equal. f_equal. lia.
Qed.

(** The sources of a polyline of [3k + r] scalars, [r] being 1 or 2: those
    of its first [3k] scalars, and one more, whose end has [r] scalars. *)
Lemma polyline_sources_malformed (polyline : Polyline) (k r : Z) :
  len (value polyline) = 3 * k + r -> 1 <= k -> 1 <= r <= 2 ->
  polyline_sources polyline
  = polyline_sources {| value := firstn (Z.to_nat (3 * k)) (value polyline) |}
    ++ [Sliced (slice (value polyline) (3 * k - 3) (3 * k))
               (slice (value polyline) (3 * k) (3 * k + 3))].
Proof.
  intros HL Hk Hr. unfold polyline_sources at 1 2. cbn [value].
  assert (Hpre : len (firstn (Z.to_nat (3 * k)) (value polyline)) = 3 * k).
  { unfold len in *. rewrite length_firstn. lia. }
  rewrite HL, Hpre, (range3_snoc k r Hk Hr), map_app. cbn [map].
  f_equal.
  - apply map_ext_in. intros j Hj. unfold range3 in Hj.
    apply in_map_iff in Hj. destruct Hj as (i & <- & Hi). apply in_seq in Hi.
    assert (Hq : (3 * k - 3 - 0 + 3 - 1) / 3 = k - 1).
    { replace (3 * k - 3 - 0 + 3 - 1) with (2 + (k - 1) * 3) by lia.
      rewrite Z.div_add by lia. reflexivity. }
    rewrite Hq in Hi.
    rewrite !slice_firstn by lia. reflexivity.
  - f_equal. f_equal; f_equal; lia.
Qed.

(** C9 (as amended): rebar.py does not check the length of a polyline.  One
    whose length [L] is not a multiple of 3 is not refused: with [L <= 3] it
    is ignored, the outcome being that of the shape without it, in every
    mode; with [L > 3] it is treated as its first [3 * (L / 3)] scalars, after
    which one more [Line] is constructed, from three coordinates to the
    [L mod 3] that remain. *)
Theorem malformed_polyline_line_mode (math_cos math_sin : float -> float)
    (math_pow : float -> float -> float)
    (new_Line : list float -> list float -> result Line)
    (self : RebarGroup) (polyline : Polyline) (pre post : list Polyline) :
  polylines (shape self) = pre ++ polyline :: post ->
  len (value polyline) mod 3 <> 0 ->
  (len (value polyline) <= 3 ->
   forall mode,
     generate_representation math_cos math_sin math_pow new_Line
       (with_mode self mode)
     = generate_representation math_cos math_sin math_pow new_Line
         (with_mode (with_polylines self (pre ++ post)) mode))
  /\ (3 < len (value polyline) -> post = [] -> number self = 1 ->
      let L := len (value polyline) in
      let wellformed :=
        {| value := firstn (Z.to_nat (3 * (L / 3))) (value polyline) |} in
      let start_point := slice (value polyline) (3 * (L / 3) - 3) (3 * (L / 3)) in
      let end_point := slice (value polyline) (3 * (L / 3)) (3 * (L / 3) + 3) in
      len (value wellformed) = 3 * (L / 3)
      /\ len start_point = 3
      /\ len end_point = L mod 3
      /\ _generate_line_representation new_Line self
         = (ls <- _generate_line_representation new_Line
                    (with_polylines self (pre ++ [wellformed])) ;;
            line <- new_Line start_point end_point ;;
            Ok (ls ++ [line]))).
Proof.
  intros Hpls Hmod.
  pose proof (Z.div_mod (len (value polyline)) 3 ltac:(lia)) as Hdm.
  pose proof (Z.mod_pos_bound (len (value polyline)) 3 ltac:(lia)) as Hb.
  split.
  - intros Hshort mode.
    assert (Hsrc : forall m,
              group_sources (with_mode self m)
              = group_sources (with_mode (with_polylines self (pre ++ post)) m)).
    { intros m. unfold group_sources, instance_sources.
      cbn [shape with_mode with_polylines number lines polylines].
      rewrite Hpls, !flat_map_app. cbn [flat_map].
      rewrite (polyline_sources_short polyline Hshort). reflexivity. }
    unfold generate_representation.
    rewrite !volumetric_representation_eq, !line_representation_eq.
    cbn [representation_mode with_mode with_polylines].
    rewrite (Hsrc mode).
    rewrite (mapM_ext
               (build_mesh math_cos math_sin math_pow new_Line
                  (with_mode self mode))
               (build_mesh math_cos math_sin math_pow new_Line
                  (with_mode (with_polylines self (pre ++ post)) mode)));
      [reflexivity|].
    intros src. unfold build_mesh, mesh36.
    destruct (build new_Line src) as [l|e]; cbn [bind]; [|reflexivity].
    rewrite !mesher_unfold. reflexivity.
  - intros Hlong -> Hn L wellformed start_point end_point.
    subst L wellformed start_point end_point.
    set (L := len (value polyline)) in *.
    assert (Hk : 1 <= L / 3) by lia.
    assert (Hr : 1 <= L mod 3 <= 2) by lia.
    split; [cbn [value]; unfold len in *; rewrite length_firstn; lia|].
    split; [rewrite slice_len by lia; fold L; lia|].
    split; [rewrite slice_len by lia; fold L; lia|].
    rewrite !line_representation_eq. unfold group_sources.
    cbn [shape with_polylines number lines polylines].
    rewrite Hn. change (Z.to_nat 1) with 1%nat. cbn [repeat List.concat].
    rewrite !app_nil_r. unfold instance_sources. cbn [lines polylines].
    rewrite Hpls, !flat_map_app. cbn [flat_map]. rewrite !app_nil_r.
    rewrite (polyline_sources_malformed polyline (L / 3) (L mod 3))
      by (fold L; lia).
    rewrite !app_assoc. rewrite (mapM_app _ _ [_]).
    destruct (mapM _ _) as [ls|e]; cbn [bind]; [|reflexivity].
    cbn [mapM build].
    destruct (new_Line _ _) as [l|e]; reflexivity.
Qed.

Lemma malformed_polyline_line_mode_witness :
  generate (with_mode (mk_group [unit_z_line] [[0; 0]%float] 20 2 "AsLine")
              "AsVolume")
  = generate (with_mode
                (with_polylines
                   (mk_group [unit_z_line] [[0; 0]%float] 20 2 "AsLine") [])
                "AsVolume")
  /\ _generate_line_representation checked_Line
       (mk_group [unit_z_line] [[0; 0; 0; 1; 0; 0; 1; 1]%float] 20 1 "AsLine")
     = (ls <- _generate_line_representation checked_Line
                (mk_group [unit_z_line] [[0; 0; 0; 1; 0; 0]%float] 20 1
                   "AsLine") ;;
        line <- checked_Line [1; 0; 0]%float [1; 1]%float ;;
        Ok (ls ++ [line])).
Proof.
  split.
  - destruct (malformed_polyline_line_mode series_cos series_sin product_pow
                checked_Line
                (mk_group [unit_z_line] [[0; 0]%float] 20 2 "AsLine")
                {| value := [0; 0]%float |} [] []) as [Hs _].
    + reflexivity.
    + vm_compute. discriminate.
    + apply (Hs ltac:(vm_compute; discriminate) "AsVolume"%string).
  - destruct (malformed_polyline_line_mode series_cos series_sin product_pow
                checked_Line
                (mk_group [unit_z_line] [[0; 0; 0; 1; 0; 0; 1; 1]%float] 20 1
                   "AsLine")
                {| value := [0; 0; 0; 1; 0; 0; 1; 1]%float |} [] [])
      as [_ Hl].
    + reflexivity.
    + vm_compute. discriminate.
    + destruct (Hl ltac:(reflexivity) eq_refl eq_refl) as (_ & _ & _ & Heq).
      rewrite Heq. reflexivity.
Defined.

(** With a [Line] that stores the lists it is given, the extra line of a
    polyline of 8 scalars ends in a point of two coordinates. *)
Lemma malformed_polyline_with_passive_Line :
  _generate_line_representation passive_Line
    (mk_group [] [[0; 0; 0; 1; 0; 0; 1; 1]%float] 20 1 "AsLine")
  = Ok [ {| start := CoordList [0; 0; 0]%float;
            end_ := CoordList [1; 0; 0]%float |};
         {| start := CoordList [1; 0; 0]%float;
            end_ := CoordList [1; 1]%float |} ].
Proof. reflexivity. Qed.

(** A two-scalar polyline is not refused: both modes return what the shape
    gives without it, and the group is constructed. *)
Lemma malformed_polyline_no_InvalidArgument :
  generate (mk_group [unit_z_line] [[0; 0]%float] 20 1 "AsLine")
  = Ok [LineObj unit_z_line]
  /\ generate (mk_group [unit_z_line] [[0; 0]%float] 20 1 "AsLine")
     <> Raise InvalidArgument
  /\ (exists m,
        generate (mk_group [unit_z_line] [[0; 0]%float] 20 1 "AsVolume")
        = Ok [MeshObj m])
  /\ exists g,
       RebarGroup_init series_cos series_sin product_pow checked_Line
         {| lines := [unit_z_line]; polylines := [{| value := [0; 0]%float |}];
            bar_diameter := 20 |} 1 true true "AsLine" = Ok g
       /\ representation g = [LineObj unit_z_line].
Proof.
  split; [reflexivity|]. split; [vm_compute; discriminate|].
  split; [eexists; vm_compute; reflexivity|].
  eexists. split; [vm_compute; reflexivity|reflexivity].
Qed.

(** * Further properties of the generator *)

Lemma with_number_sources (self : RebarGroup) (n : Z) :
  group_sources (with_number self n)
  = List.concat (repeat (instance_sources (shape self)) (Z.to_nat n)).
Proof. reflexivity. Qed.

Lemma volume_mode_with_number (math_cos math_sin : float -> float)
    (math_pow : float -> float -> float)
    (new_Line : list float -> list float -> result Line)
    (self : RebarGroup) (n : Z) :
  generate_representation math_cos math_sin math_pow new_Line
    (with_mode (with_number self n) RebarRepresentationMode.AS_VOLUME)
  = (meshes <- mapM (build_mesh math_cos math_sin math_pow new_Line self)
                 (List.concat (repeat (instance_sources (shape self))
                                 (Z.to_nat n))) ;;
     Ok (map MeshObj meshes)).
Proof.
  rewrite volume_mode_result, with_number_sources. reflexivity.
Qed.

(** ** Counting in line mode *)

(** X1: when line mode returns, its list has [max 0 number] times as many
    elements as one bar has segments: one per line plus, for each polyline of
    [L] scalars, [max 0 ((L - 1) / 3)].  When no polyline has more than 3
    scalars it does return, the shape's lines repeated [number] times, so
    [max 0 number * len(lines)] elements. *)
Theorem line_mode_length
    (new_Line : list float -> list float -> result Line)
    (self : RebarGroup) :
  (forall ls,
     _generate_line_representation new_Line self = Ok ls ->
     len ls
     = Z.max 0 (number self)
       * (len (lines (shape self))
          + Zsum (map (fun polyline => segment_count (len (value polyline)))
                      (polylines (shape self)))))
  /\ ((forall polyline, In polyline (polylines (shape self)) ->
         len (value polyline) <= 3) ->
      _generate_line_representation new_Line self
      = Ok (List.concat (repeat (lines (shape self))
                           (Z.to_nat (number self))))
      /\ len (List.concat (repeat (lines (shape self))
                             (Z.to_nat (number self))))
         = Z.max 0 (number self) * len (lines (shape self))).
Proof.
  split.
  - intros ls H. rewrite line_representation_eq in H.
    apply mapM_length in H. unfold len at 1. rewrite H.
    unfold group_sources. rewrite concat_repeat_length.
    unfold instance_sources.
    rewrite length_app, length_map, Nat2Z.inj_mul, Nat2Z.inj_add.
    fold (len (lines (shape self))).
    fold (len (flat_map polyline_sources (polylines (shape self)))).
    rewrite flat_map_len_Zsum.
    rewrite (map_ext _ (fun polyline => segment_count (len (value polyline)))
               polyline_sources_len).
    replace (Z.of_nat (Z.to_nat (number self))) with (Z.max 0 (number self))
      by lia.
    reflexivity.
  - intros Hshort. split.
    + rewrite line_representation_eq, (group_sources_lines_only self Hshort).
      apply mapM_build_given.
    + unfold len. rewrite concat_repeat_length. lia.
Qed.

Lemma line_mode_length_witness :
  _generate_line_representation checked_Line
    (mk_group [unit_z_line; point_line] [[1; 2; 3]%float] 20 3 "AsLine")
  = Ok [unit_z_line; point_line; unit_z_line; point_line;
        unit_z_line; point_line].
Proof.
  apply (proj2 (line_mode_length checked_Line
                  (mk_group [unit_z_line; point_line] [[1; 2; 3]%float] 20 3
                     "AsLine"))).
  intros polyline [<-|[]]. vm_compute. discriminate.
Defined.

(** ** How the number of bars composes *)

(** X3: generating [a + b] bars is generating [a] bars and then [b] bars: the
    result is the concatenation of the two lists, or the exception of the
    first part, or else that of the second; in line mode and in volume
    mode. *)
Theorem number_is_additive (math_cos math_sin : float -> float)
    (math_pow : float -> float -> float)
    (new_Line : list float -> list float -> result Line)
    (self : RebarGroup) (a b : Z) :
  0 <= a -> 0 <= b ->
  _generate_line_representation new_Line (with_number self (a + b))
  = (ra <- _generate_line_representation new_Line (with_number self a) ;;
     rb <- _generate_line_representation new_Line (with_number self b) ;;
     Ok (ra ++ rb))
  /\ generate_representation math_cos math_sin math_pow new_Line
       (with_mode (with_number self (a + b)) RebarRepresentationMode.AS_VOLUME)
     = (ra <- generate_representation math_cos math_sin math_pow new_Line
                (with_mode (with_number self a)
                   RebarRepresentationMode.AS_VOLUME) ;;
        rb <- generate_representation math_cos math_sin math_pow new_Line
                (with_mode (with_number self b)
                   RebarRepresentationMode.AS_VOLUME) ;;
        Ok (ra ++ rb)).
Proof.
  intros Ha Hb. split.
  - rewrite !line_representation_eq, !with_number_sources.
    rewrite Z2Nat.inj_add by assumption.
    rewrite concat_repeat_add. apply mapM_app.
  - rewrite !volume_mode_with_number, Z2Nat.inj_add by assumption.
    rewrite concat_repeat_add, mapM_app.
    destruct (mapM _ (List.concat (repeat _ (Z.to_nat a)))) as [ma|e];
      cbn [bind]; [|reflexivity].
    destruct (mapM _ (List.concat (repeat _ (Z.to_nat b)))) as [mb|e];
      cbn [bind]; [|reflexivity].
    rewrite map_app. reflexivity.
Qed.

Lemma number_is_additive_witness :
  _generate_line_representation checked_Line
    (with_number (scenario_group "AsLine") (1 + 2))
  = (ra <- _generate_line_representation checked_Line
             (with_number (scenario_group "AsLine") 1) ;;
     rb <- _generate_line_representation checked_Line
             (with_number (scenario_group "AsLine") 2) ;;
     Ok (ra ++ rb)).
Proof.
  apply (number_is_additive series_cos series_sin product_pow checked_Line
           (scenario_group "AsLine") 1 2); lia.
Defined.

(** X4: volume mode is decided by one bar.  If a single bar meshes to [ms],
    [n] bars give [ms] repeated [n] times; if a single bar raises [e], every
    [n >= 1] raises the same [e]. *)
Theorem volume_mode_decided_by_one_bar (math_cos math_sin : float -> float)
    (math_pow : float -> float -> float)
    (new_Line : list float -> list float -> result Line)
    (self : RebarGroup) :
  (forall ms,
     generate_representation math_cos math_sin math_pow new_Line
       (with_mode (with_number self 1) RebarRepresentationMode.AS_VOLUME)
     = Ok ms ->
     forall n,
       generate_representation math_cos math_sin math_pow new_Line
         (with_mode (with_number self n) RebarRepresentationMode.AS_VOLUME)
       = Ok (List.concat (repeat ms (Z.to_nat n))))
  /\ (forall e,
        generate_representation math_cos math_sin math_pow new_Line
          (with_mode (with_number self 1) RebarRepresentationMode.AS_VOLUME)
        = Raise e ->
        forall n, 1 <= n ->
          generate_representation math_cos math_sin math_pow new_Line
            (with_mode (with_number self n) RebarRepresentationMode.AS_VOLUME)
          = Raise e).
Proof.
  split.
  - intros ms H n. rewrite volume_mode_with_number in *.
    change (Z.to_nat 1) with 1%nat in H. cbn [repeat List.concat] in H.
    rewrite app_nil_r in H.
    destruct (mapM _ (instance_sources (shape self))) as [one|e] eqn:E;
      cbn [bind] in H; [|discriminate].
    injection H as <-.
    rewrite (mapM_concat_repeat_ok _ _ _ _ E). cbn [bind].
    rewrite concat_repeat_map. reflexivity.
  - intros e H n Hn. rewrite volume_mode_with_number in *.
    change (Z.to_nat 1) with 1%nat in H. cbn [repeat List.concat] in H.
    rewrite app_nil_r in H.
    destruct (mapM _ (instance_sources (shape self))) as [one|e'] eqn:E;
      cbn [bind] in H; [discriminate|].
    injection H as <-.
    destruct (Z.to_nat n) as [|k] eqn:Ek; [lia|].
    rewrite (mapM_concat_repeat_raise _ _ _ _ E). reflexivity.
Qed.

Lemma volume_mode_decided_by_one_bar_witness :
  (exists m,
     generate (with_mode (with_number (scenario_group "AsLine") 3) "AsVolume")
     = Ok (List.concat (repeat [MeshObj m] 3)))
  /\ generate (with_mode (with_number (mk_group [point_line] [] 20 1 "AsLine") 5)
                 "AsVolume")
     = Raise ZeroDivisionError.
Proof.
  split.
  - destruct (generate (with_mode (with_number (scenario_group "AsLine") 1)
                          "AsVolume")) as [ms|e] eqn:E;
      [|vm_compute in E; discriminate].
    assert (Hms : exists m, ms = [MeshObj m]).
    { vm_compute in E. injection E as <-. eexists. reflexivity. }
    destruct Hms as [m ->]. exists m.
    apply (proj1 (volume_mode_decided_by_one_bar series_cos series_sin
                    product_pow checked_Line
                    (scenario_group "AsLine")) _ E 3).
  - apply (proj2 (volume_mode_decided_by_one_bar series_cos series_sin
                    product_pow checked_Line
                    (mk_group [point_line] [] 20 1 "AsLine"))
             ZeroDivisionError); [reflexivity|lia].
Defined.

(** ** Exceptions *)

(** X5: when the constructor of [Line] raises nothing but
    [SpeckleException], generation raises only with [number >= 1], and then
    either [SpeckleException], some polyline having more than 3 scalars, or,
    in volume mode, one of the mesher's [AttributeError], [OverflowError],
    [ValueError] and [ZeroDivisionError]; never [InvalidArgument] or
    [DegenerateGeometry]. *)
Theorem generation_exceptions (math_cos math_sin : float -> float)
    (math_pow : float -> float -> float)
    (new_Line : list float -> list float -> result Line)
    (self : RebarGroup) (e : exn) :
  (forall start_point end_point r,
     new_Line start_point end_point = Raise r -> r = SpeckleException) ->
  generate_representation math_cos math_sin math_pow new_Line self = Raise e ->
  1 <= number self
  /\ ((e = SpeckleException
       /\ exists polyline,
            In polyline (polylines (shape self))
            /\ 3 < len (value polyline))
      \/ (representation_mode self = RebarRepresentationMode.AS_VOLUME
          /\ (e = AttributeError \/ e = OverflowError \/ e = ValueError
              \/ e = ZeroDivisionError))).
Proof.
  intros Hnew H.
  assert (Hbuild : forall src,
            In src (group_sources self) ->
            build new_Line src = Raise e ->
            1 <= number self
            /\ e = SpeckleException
            /\ exists polyline,
                 In polyline (polylines (shape self))
                 /\ 3 < len (value polyline)).
  { intros src Hin Hb. apply in_group_sources in Hin.
    destruct Hin as [Hn Hin]. split; [exact Hn|].
    destruct src as [l|s t]; cbn [build] in Hb; [discriminate|].
    split; [exact (Hnew _ _ _ Hb)|].
    unfold instance_sources in Hin. apply in_app_or in Hin.
    destruct Hin as [Hg|Hs].
    - apply in_map_iff in Hg. destruct Hg as (l' & Heq & _). discriminate.
    - apply in_flat_map in Hs. destruct Hs as (pl & Hpl & Hs).
      exists pl. split; [exact Hpl|].
      destruct (Z_le_gt_dec (len (value pl)) 3) as [Hle|Hgt]; [|lia].
      rewrite (polyline_sources_short pl Hle) in Hs. contradiction. }
  unfold generate_representation in H.
  rewrite volumetric_representation_eq, line_representation_eq in H.
  destruct (String.eqb (representation_mode self)
              RebarRepresentationMode.AS_VOLUME) eqn:Em.
  - apply String.eqb_eq in Em.
    destruct (mapM _ (group_sources self)) as [ms|e'] eqn:E;
      cbn [bind] in H; [discriminate|].
    injection H as <-.
    destruct (mapM_raise_inv _ _ _ E) as (src & Hin & Hsrc).
    unfold build_mesh in Hsrc.
    destruct (build new_Line src) as [l|e0] eqn:Eb; cbn [bind] in Hsrc.
    + split; [apply in_group_sources in Hin; tauto|].
      right. split; [exact Em|].
      exact (mesher_exceptions _ _ _ _ _ _ _ Hsrc).
    + injection Hsrc as <-.
      destruct (Hbuild src Hin Eb) as (Hn & He & Hpl).
      split; [exact Hn|]. left. split; assumption.
  - destruct (mapM _ (group_sources self)) as [ls|e'] eqn:E;
      cbn [bind] in H; [discriminate|].
    injection H as <-.
    destruct (mapM_raise_inv _ _ _ E) as (src & Hin & Hsrc).
    destruct (Hbuild src Hin Hsrc) as (Hn & He & Hpl).
    split; [exact Hn|]. left. split; assumption.
Qed.

Lemma generation_exceptions_witness :
  1 <= number (mk_group [unit_z_line] [[0; 0; 0; 1; 0; 0]%float] 20 1 "AsLine")
  /\ generate (mk_group [unit_z_line] [[0; 0; 0; 1; 0; 0]%float] 20 1 "AsLine")
     = Raise SpeckleException.
Proof.
  destruct (generation_exceptions series_cos series_sin product_pow
              checked_Line
              (mk_group [unit_z_line] [[0; 0; 0; 1; 0; 0]%float] 20 1 "AsLine")
              SpeckleException) as (Hn & _).
  - intros s t r H. injection H as <-. reflexivity.
  - reflexivity.
  - split; [exact Hn|reflexivity].
Defined.

(** X6: volume mode reports the first segment, in list order, that cannot
    be meshed: when every segment before it meshes and it raises [e], the
    whole generation raises [e] and nothing is returned. *)
Theorem volume_mode_first_failure (math_cos math_sin : float -> float)
    (math_pow : float -> float -> float)
    (new_Line : list float -> list float -> result Line)
    (self : RebarGroup) (pre post : list Line) (line : Line) (e : exn) :
  _generate_line_representation new_Line self = Ok (pre ++ line :: post) ->
  (forall l, In l pre ->
     exists m,
       _line_to_cylinder_mesh math_cos math_sin math_pow self l 36 = Ok m) ->
  _line_to_cylinder_mesh math_cos math_sin math_pow self line 36 = Raise e ->
  generate_representation math_cos math_sin math_pow new_Line
    (with_mode self RebarRepresentationMode.AS_VOLUME) = Raise e.
Proof.
  intros Hsplit Hpre Hline.
  rewrite (volume_mode_via_lines _ _ _ _ _ _ Hsplit). unfold mesh36.
  rewrite (mapM_first_failure _ pre post line e Hpre Hline). reflexivity.
Qed.

Lemma volume_mode_first_failure_witness :
  generate (with_mode
              (mk_group [unit_z_line; point_line; unit_z_line] [] 20 1
                 "AsLine") "AsVolume")
  = Raise ZeroDivisionError.
Proof.
  apply (volume_mode_first_failure series_cos series_sin product_pow
           checked_Line
           (mk_group [unit_z_line; point_line; unit_z_line] [] 20 1 "AsLine")
           [unit_z_line] [unit_z_line] point_line ZeroDivisionError).
  - reflexivity.
  - intros l [<-|[]]. eexists. vm_compute. reflexivity.
  - reflexivity.
Defined.

(** ** The tube mesher: what decides its outcome *)

(** X7: the exceptions of the segment do not depend on the resolution or on
    the group.  What the mesher raises at a resolution [N0 <= 0], where no
    loop body runs, it raises for the same line at every resolution and for
    every group; and an [AttributeError] at any resolution is raised at every
    resolution. *)
Theorem mesher_outcome_depends_on_line (math_cos math_sin : float -> float)
    (math_pow : float -> float -> float)
    (self self' : RebarGroup) (line : Line) (N0 N N' : Z) :
  N0 <= 0 ->
  (forall e,
     _line_to_cylinder_mesh math_cos math_sin math_pow self line N0 = Raise e ->
     _line_to_cylinder_mesh math_cos math_sin math_pow self' line N' = Raise e)
  /\ (_line_to_cylinder_mesh math_cos math_sin math_pow self line N
      = Raise AttributeError ->
      _line_to_cylinder_mesh math_cos math_sin math_pow self' line N'
      = Raise AttributeError).
Proof.
  intros HN0. rewrite !mesher_unfold. split.
  - intros e. unfold circle at 1. rewrite (range_nonpos _ HN0).
    destruct (segment_frame math_pow line) as [frame|e0]; cbn [bind mapM];
      [discriminate|].
    intros H. exact H.
  - destruct (segment_frame math_pow line) as [frame|e0]; cbn [bind];
      [|intros H; exact H].
    destruct (circle math_cos math_sin _ N) as [cvs|e1] eqn:Ec; cbn [bind];
      [discriminate|].
    intros H. injection H as ->. unfold circle in Ec.
    destruct (mapM_raise_inv _ _ _ Ec) as (i & Hi & Hc).
    apply in_range in Hi.
    destruct (circle_vertex_exceptions _ _ _ _ _ _ Hi Hc) as [H|[H|H]];
      discriminate.
Qed.

Lemma mesher_outcome_depends_on_line_witness :
  mesher (scenario_group "AsVolume") point_line 36 = Raise ZeroDivisionError.
Proof.
  apply (proj1 (mesher_outcome_depends_on_line series_cos series_sin
                  product_pow
                  (mk_group [] [] 5 1 "AsLine") (scenario_group "AsVolume")
                  point_line 0 0 36 ltac:(lia))).
  reflexivity.
Defined.

(** X8: a resolution [N <= 0] is not an error: a segment that can be meshed
    at all gets the empty mesh, without vertices or faces. *)
Theorem nonpositive_resolution_empty_mesh (math_cos math_sin : float -> float)
    (math_pow : float -> float -> float)
    (self : RebarGroup) (line : Line) (N N0 : Z) (m0 : Mesh) :
  N <= 0 ->
  _line_to_cylinder_mesh math_cos math_sin math_pow self line N0 = Ok m0 ->
  _line_to_cylinder_mesh math_cos math_sin math_pow self line N
  = Ok {| vertices := []; faces := [] |}.
Proof.
  intros HN H0. rewrite mesher_unfold in *.
  destruct (segment_frame math_pow line) as [[[sp ud] l]|e]; [|discriminate].
  cbn [bind]. unfold circle at 1, tube_faces.
  rewrite (range_nonpos _ HN). reflexivity.
Qed.

Lemma nonpositive_resolution_empty_mesh_witness :
  mesher (scenario_group "AsVolume") unit_z_line (-3)
  = Ok {| vertices := []; faces := [] |}.
Proof.
  destruct (mesher (scenario_group "AsVolume") unit_z_line 36) as [m0|e] eqn:E;
    [|vm_compute in E; discriminate].
  apply (nonpositive_resolution_empty_mesh series_cos series_sin product_pow
           (scenario_group "AsVolume") unit_z_line (-3) 36 m0); [lia|exact E].
Defined.

(** ** The tube mesher: topology of the side wall *)

Lemma side_faces_mod (N i : Z) :
  0 <= i < N ->
  (i * 2 + 2) mod (N * 2) = 2 * ((i + 1) mod N)
  /\ (i * 2 + 3) mod (N * 2) = 2 * ((i + 1) mod N) + 1.
Proof.
  intros Hi.
  assert (Hc : i + 1 < N \/ i + 1 = N) by lia.
  destruct Hc as [Hc|Hc].
  - rewrite !Z.mod_small by lia. lia.
  - replace (i * 2 + 2) with (0 + 1 * (N * 2)) by lia.
    replace (i * 2 + 3) with (1 + 1 * (N * 2)) by lia.
    rewrite !Z.mod_add by lia. rewrite Hc, Z.mod_same by lia.
    rewrite !Z.mod_small by lia. lia.
Qed.

(** X9: the side wall closes on itself.  In a returned mesh, ring step [i]
    contributes the triangles [(2i, 2i+1, 2j)] and [(2i+1, 2j+1, 2j)] with
    [j = (i + 1) mod N]: bottom and top of step [i] joined to bottom and top
    of its successor, the last step being joined to step 0. *)
Theorem side_wall_wraps_around (math_cos math_sin : float -> float)
    (math_pow : float -> float -> float)
    (self : RebarGroup) (line : Line) (N i : Z) (m : Mesh) :
  _line_to_cylinder_mesh math_cos math_sin math_pow self line N = Ok m ->
  0 <= i < N ->
  side_faces N i
  = [3; 2 * i; 2 * i + 1; 2 * ((i + 1) mod N);
     3; 2 * i + 1; 2 * ((i + 1) mod N) + 1; 2 * ((i + 1) mod N)]
  /\ exists fs,
       mesh_faces m = Some fs
       /\ In [2 * i; 2 * i + 1; 2 * ((i + 1) mod N)] fs
       /\ In [2 * i + 1; 2 * ((i + 1) mod N) + 1; 2 * ((i + 1) mod N)] fs.
Proof.
  intros Hm Hi.
  destruct (side_faces_mod N i Hi) as [H2 H3].
  destruct (mesher_ok_inv math_cos math_sin math_pow self line N m)
    as [_ Hf]; [lia | exact Hm |].
  assert (Hs : side_triangles N i
               = [ [2 * i; 2 * i + 1; 2 * ((i + 1) mod N)];
                   [2 * i + 1; 2 * ((i + 1) mod N) + 1;
                    2 * ((i + 1) mod N)] ]).
  { unfold side_triangles. rewrite H2, H3.
    replace (i * 2) with (2 * i) by lia. reflexivity. }
  split.
  - unfold side_faces. cbv zeta. rewrite H2, H3.
    replace (i * 2) with (2 * i) by lia. reflexivity.
  - eexists. split; [exact Hf|].
    unfold tube_faces. split; apply in_or_app; left; apply in_flat_map;
      exists i; (split; [apply in_range; lia|]); rewrite Hs.
    + left. reflexivity.
    + right. left. reflexivity.
Qed.

Lemma side_wall_wraps_around_witness :
  side_faces 4 3 = [3; 6; 7; 0; 3; 7; 1; 0]
  /\ exists m fs,
       mesher (scenario_group "AsVolume") unit_z_line 4 = Ok m
       /\ mesh_faces m = Some fs
       /\ In [6; 7; 0] fs /\ In [7; 1; 0] fs.
Proof.
  destruct (mesher (scenario_group "AsVolume") unit_z_line 4) as [m|e] eqn:E;
    [|vm_compute in E; discriminate].
  destruct (side_wall_wraps_around series_cos series_sin product_pow
              (scenario_group "AsVolume") unit_z_line 4 3 m E)
    as (Hs & fs & Hf & H1 & H2); [lia|].
  split; [exact Hs|].
  exists m, fs. repeat split; assumption.
Defined.

(** X10: in a returned mesh with [N >= 1], every index of the [2N] side
    triangles, and the two ring corners of each of the [2N] cap triangles,
    refer to emitted vertices [0 .. 2N-1]. *)
Theorem ring_indices_in_range (math_cos math_sin : float -> float)
    (math_pow : float -> float -> float)
    (self : RebarGroup) (line : Line) (N : Z) (m : Mesh) :
  1 <= N ->
  _line_to_cylinder_mesh math_cos math_sin math_pow self line N = Ok m ->
  exists side cap,
    mesh_faces m = Some (side ++ cap)
    /\ len side = 2 * N
    /\ len cap = 2 * N
    /\ (forall face, In face side -> face_in_range m face = true)
    /\ (forall face, In face cap -> face_in_range m (tl face) = true).
Proof.
  intros HN Hm.
  destruct (mesher_ok_inv math_cos math_sin math_pow self line N m)
    as [Hv Hf]; [lia | exact Hm |].
  assert (Hc : vertex_count m = 2 * N).
  { unfold vertex_count. rewrite Hv.
    replace (6 * N) with (2 * N * 3) by lia. apply Z.div_mul. lia. }
  exists (flat_map (side_triangles N) (range N)).
  exists (flat_map (cap_triangles N (3 * N - 1) (6 * N - 1)) (range N)).
  split; [exact Hf|].
  split; [apply side_triangles_len; lia|].
  split; [apply cap_triangles_len; lia|].
  split; intros face Hface; apply in_flat_map in Hface;
    destruct Hface as (i & Hi & Hface); apply in_range in Hi;
    unfold face_in_range; apply forallb_forall; intros k Hk; rewrite Hc.
  - pose proof (side_triangles_in_range N i k face Hi Hface Hk).
    apply andb_true_intro. split; [apply Z.leb_le|apply Z.ltb_lt]; lia.
  - pose proof (cap_ring_corners_in_range N _ _ i k face Hi Hface Hk).
    apply andb_true_intro. split; [apply Z.leb_le|apply Z.ltb_lt]; lia.
Qed.

Lemma ring_indices_in_range_witness :
  exists m side cap,
    mesher (scenario_group "AsVolume") unit_z_line 4 = Ok m
    /\ mesh_faces m = Some (side ++ cap)
    /\ len side = 8
    /\ (forall face, In face side -> face_in_range m face = true).
Proof.
  destruct (mesher (scenario_group "AsVolume") unit_z_line 4) as [m|e] eqn:E;
    [|vm_compute in E; discriminate].
  destruct (ring_indices_in_range series_cos series_sin product_pow
              (scenario_group "AsVolume") unit_z_line 4 m)
    as (side & cap & Hf & Hs & _ & Hin & _); [lia | exact E |].
  exists m, side, cap. repeat split; assumption.
Defined.

(** ** Volume mode at the default resolution *)

(** X11: every element of a volume-mode result is a mesh of the default
    resolution 36: 72 vertices (216 scalars) and 144 triangular faces. *)
Theorem volume_mode_mesh_sizes (math_cos math_sin : float -> float)
    (math_pow : float -> float -> float)
    (new_Line : list float -> list float -> result Line)
    (self : RebarGroup) (r : list Base) (b : Base) :
  generate_representation math_cos math_sin math_pow new_Line
    (with_mode self RebarRepresentationMode.AS_VOLUME) = Ok r ->
  In b r ->
  exists m fs,
    b = MeshObj m
    /\ len (vertices m) = 216
    /\ vertex_count m = 72
    /\ mesh_faces m = Some fs
    /\ len fs = 144
    /\ (forall face, In face fs -> len face = 3).
Proof.
  intros Hr Hb.
  destruct (volume_mode_ok_inv _ _ _ _ _ _ Hr) as (ls & meshes & _ & E & ->).
  apply in_map_iff in Hb. destruct Hb as (m & <- & Hm).
  destruct (mapM_ok_in _ _ _ _ E Hm) as (line & _ & Hline).
  destruct (mesher_ok_inv math_cos math_sin math_pow self line 36 m)
    as [Hv Hf]; [lia | exact Hline |].
  exists m. eexists. split; [reflexivity|].
  split; [exact Hv|].
  split; [unfold vertex_count; rewrite Hv; reflexivity|].
  split; [exact Hf|].
  split.
  - unfold tube_faces, len. rewrite length_app.
    pose proof (side_triangles_len 36 ltac:(lia)) as Hs.
    pose proof (cap_triangles_len 36 (3 * 36 - 1) (6 * 36 - 1) ltac:(lia)) as Hc.
    unfold len in Hs, Hc. lia.
  - apply tube_faces_triangles.
Qed.

Lemma volume_mode_mesh_sizes_witness :
  exists r m fs,
    generate (with_mode (scenario_group "AsLine") "AsVolume") = Ok r
    /\ In (MeshObj m) r
    /\ vertex_count m = 72
    /\ mesh_faces m = Some fs
    /\ len fs = 144.
Proof.
  destruct (generate (with_mode (scenario_group "AsLine") "AsVolume"))
    as [r|e] eqn:E; [|vm_compute in E; discriminate].
  destruct r as [|b r]; [vm_compute in E; discriminate|].
  destruct (volume_mode_mesh_sizes series_cos series_sin product_pow
              checked_Line (scenario_group "AsLine") (b :: r) b E)
    as (m & fs & -> & _ & Hc & Hf & Hl & _); [left; reflexivity|].
  exists (MeshObj m :: r), m, fs.
  split; [reflexivity|]. split; [left; reflexivity|].
  repeat split; assumption.
Defined.

(** ** The tube mesher: where the ring vertices are *)




(** ** Shapes without segments *)

(** X13: a shape constructed without lines ([None] or the empty list) whose
    polylines, if any, all have at most one point (at most 3 scalars) gives
    a group with the empty representation, for every number and every mode:
    volume mode calls the mesher on nothing and cannot raise. *)
Theorem segmentless_shape_empty_representation
    (math_cos math_sin : float -> float)
    (math_pow : float -> float -> float)
    (new_Line : list float -> list float -> result Line)
    (lns : option (list Line)) (pls : option (list Polyline)) (d : float)
    (n : Z) (first_bar last_bar : bool) (mode : string) :
  (lns = None \/ lns = Some []) ->
  (forall polyline, In polyline (or_empty pls) ->
     len (value polyline) <= 3) ->
  exists g,
    RebarGroup_init math_cos math_sin math_pow new_Line
      (RebarShape_init lns pls d) n first_bar last_bar mode = Ok g
    /\ representation g = []
    /\ generate_representation math_cos math_sin math_pow new_Line g = Ok [].
Proof.
  intros Hl Hp.
  assert (Hgen : forall g,
            shape g = RebarShape_init lns pls d ->
            generate_representation math_cos math_sin math_pow new_Line g
            = Ok []).
  { intros g Hg. unfold generate_representation.
    rewrite volumetric_representation_eq, line_representation_eq.
    rewrite group_sources_lines_only
      by (rewrite Hg; cbn [polylines RebarShape_init]; exact Hp).
    rewrite Hg. cbn [lines RebarShape_init].
    replace (or_empty lns) with (@nil Line)
      by (destruct Hl as [->| ->]; reflexivity).
    rewrite concat_repeat_nil.
    destruct (String.eqb _ _); reflexivity. }
  unfold RebarGroup_init. rewrite Hgen by reflexivity. cbn [bind].
  eexists. split; [reflexivity|]. split; [reflexivity|].
  apply Hgen. reflexivity.
Qed.

Lemma segmentless_shape_empty_representation_witness :
  exists g,
    RebarGroup_init series_cos series_sin product_pow checked_Line
      (RebarShape_init None
         (Some [{| value := [1; 2; 3]%float |}; {| value := [] |}]) 20)
      7 true true "AsVolume" = Ok g
    /\ representation g = []
    /\ generate g = Ok [].
Proof.
  apply (segmentless_shape_empty_representation series_cos series_sin
           product_pow checked_Line
           None (Some [{| value := [1; 2; 3]%float |}; {| value := [] |}])
           20%float 7 true true "AsVolume"%string).
  - left. reflexivity.
  - intros polyline [<-|[<-|[]]]; vm_compute; discriminate.
Defined.

(** ** Polylines *)

(** X14: for a well-formed polyline of [P] points ([3P] scalars) the loop
    over [j] calls the constructor of [Line] on point [k] and point [k+1],
    for [k = 0 .. P-2] in this order, each point being a list of exactly
    three coordinates; for a shape made of that polyline alone and one bar,
    line mode returns what these calls return, or raises what the first
    failing one raises. *)
Theorem wellformed_polyline_lines
    (new_Line : list float -> list float -> result Line)
    (self : RebarGroup) (polyline : Polyline) (P : Z) :
  len (value polyline) = 3 * P ->
  lines (shape self) = [] ->
  polylines (shape self) = [polyline] ->
  number self = 1 ->
  _generate_line_representation new_Line self
  = mapM (fun k => new_Line (polyline_point polyline k)
                            (polyline_point polyline (k + 1)))
         (range (P - 1))
  /\ len (range (P - 1)) = Z.max 0 (P - 1)
  /\ (forall k, 0 <= k < P -> len (polyline_point polyline k) = 3).
Proof.
  intros HL Hl Hp Hn. split; [|split].
  - rewrite line_representation_eq. unfold group_sources, instance_sources.
    rewrite Hn, Hl, Hp. change (Z.to_nat 1) with 1%nat.
    cbn [repeat List.concat map flat_map app]. rewrite !app_nil_r.
    unfold polyline_sources, range3.
    assert (Hq : (len (value polyline) - 3 - 0 + 3 - 1) / 3 = P - 1).
    { rewrite HL. replace (3 * P - 3 - 0 + 3 - 1) with (2 + (P - 1) * 3) by lia.
      rewrite Z.div_add by lia. reflexivity. }
    rewrite Hq, range_seq.
    induction (seq 0 (Z.to_nat (P - 1))) as [|k ks IH];
      cbn [map mapM build]; [reflexivity|].
    unfold polyline_point at 1 2.
    replace (3 * Z.of_nat k) with (0 + 3 * Z.of_nat k) by lia.
    replace (3 * (Z.of_nat k + 1)) with (0 + 3 * Z.of_nat k + 3) by lia.
    replace (0 + 3 * Z.of_nat k + 3 + 3) with (0 + 3 * Z.of_nat k + 6) by lia.
    destruct (new_Line _ _) as [l|e]; cbn [bind]; [|reflexivity].
    rewrite IH. reflexivity.
  - apply range_length.
  - intros k Hk. unfold polyline_point. rewrite slice_len by lia. lia.
Qed.

Lemma wellformed_polyline_lines_witness :
  _generate_line_representation checked_Line
    (mk_group [] [[0; 0; 0; 1; 0; 0; 1; 1; 0]%float] 20 1 "AsLine")
  = mapM (fun k => checked_Line
                     (polyline_point
                        {| value := [0; 0; 0; 1; 0; 0; 1; 1; 0]%float |} k)
                     (polyline_point
                        {| value := [0; 0; 0; 1; 0; 0; 1; 1; 0]%float |} (k + 1)))
         (range (3 - 1)).
Proof.
  apply (wellformed_polyline_lines checked_Line
           (mk_group [] [[0; 0; 0; 1; 0; 0; 1; 1; 0]%float] 20 1 "AsLine")
           {| value := [0; 0; 0; 1; 0; 0; 1; 1; 0]%float |} 3);
    reflexivity.
Defined.

(** ** What the representation depends on *)

(** X16: the representation depends only on the shape, the number and on
    whether the mode is "AsVolume": [has_first_bar], [has_last_bar] and a
    representation stored earlier have no influence. *)
Theorem representation_depends_on (math_cos math_sin : float -> float)
    (math_pow : float -> float -> float)
    (new_Line : list float -> list float -> result Line)
    (self self' : RebarGroup) :
  shape self = shape self' ->
  number self = number self' ->
  (representation_mode self = RebarRepresentationMode.AS_VOLUME
   <-> representation_mode self' = RebarRepresentationMode.AS_VOLUME) ->
  generate_representation math_cos math_sin math_pow new_Line self
  = generate_representation math_cos math_sin math_pow new_Line self'.
Proof.
  intros Hs Hn Hm.
  assert (Hsrc : group_sources self = group_sources self').
  { unfold group_sources. rewrite Hs, Hn. reflexivity. }
  unfold generate_representation.
  rewrite !volumetric_representation_eq, !line_representation_eq, Hsrc.
  destruct (String.eqb (representation_mode self) _) eqn:E;
    destruct (String.eqb (representation_mode self') _) eqn:E'.
  - rewrite (mapM_ext (build_mesh math_cos math_sin math_pow new_Line self)
               (build_mesh math_cos math_sin math_pow new_Line self'));
      [reflexivity|].
    intros src. unfold build_mesh, mesh36.
    destruct (build new_Line src) as [l|e]; cbn [bind]; [|reflexivity].
    rewrite !mesher_unfold, Hs. reflexivity.
  - apply String.eqb_eq in E. apply String.eqb_neq in E'.
    exfalso. apply E', Hm, E.
  - apply String.eqb_neq in E. apply String.eqb_eq in E'.
    exfalso. apply E, Hm, E'.
  - reflexivity.
Qed.

Lemma representation_depends_on_witness :
  generate {| shape := shape (scenario_group "AsVolume"); number := 2;
              has_first_bar := false; has_last_bar := false;
              representation_mode := "AsVolume";
              representation := [LineObj point_line] |}
  = generate (scenario_group "AsVolume").
Proof.
  apply (representation_depends_on series_cos series_sin product_pow
           checked_Line);
    [reflexivity | reflexivity | split; intros _; reflexivity].
Defined.
